(** * simple-commerce: order aggregation, access control, rate limiting

    A shallow embedding of [main.go].  Go's [int] is 64 bits wide and the
    program does no arithmetic on identifiers, so integers are [Z];
    [map[int]*OrderWithProducts] is a [gmap Z]; slices are lists; a Go
    function returning [(T, error)] returns a [Result T]. *)

From Stdlib Require Import ZArith Lia Ascii String.
From stdpp Require Import gmap strings list fin_maps pretty.

Local Open Scope string_scope.
Local Open Scope Z_scope.
Local Open Scope list_scope.

(** ** Errors and results *)

Inductive error :=
| ErrUnreachable                      (* the store did not answer *)
| ErrUndefinedColumn (col : string)   (* the statement names a column the table lacks *)
| ErrScanNull (col : string)          (* rows.Scan: NULL into a Go int or string *)
| ErrScanRange (col : string)         (* rows.Scan: a number outside the Go type *)
| ErrConstraint (name : string)       (* a key or foreign-key constraint rejects a row *)
| ErrValidation (msg : string)
| ErrSyntax (msg : string)            (* strconv, encoding/json *)
| ErrIO (msg : string).

Inductive Result (A : Type) :=
| Ok (a : A)
| Err (e : error).
Arguments Ok {A} a.
Arguments Err {A} e.

(** ** Values *)

(** [time.Time], as nanoseconds since January 1 of year 1 (UTC): Go's zero
    [Time] is [0]. *)
Definition Time := Z.

(** A [DECIMAL] of the store, [unscaled * 10^(-scale)].  [Product.Price] is
    a [float64] in Go; the model carries the decimal read from the store and
    does not round it. *)
Record Decimal := { unscaled : Z; scale : Z }.

(** What [rows.Scan] accepts into a Go [float64]: database/sql hands the
    text of the [DECIMAL] to [strconv.ParseFloat], which rounds to the
    nearest [float64] and reports a value that rounds beyond the largest one
    as out of range.  The largest [float64] is [2^1024 - 2^971], and the
    values that round to it or below are those of magnitude less than
    [2^1024 - 2^970]; a value too small for a [float64] rounds to zero and is
    accepted. *)
Definition float64_range : Z := Eval vm_compute in 2 ^ 1024 - 2 ^ 970.

Definition fits_float64 (d : Decimal) : bool :=
  if 0 <=? scale d
  then Z.abs (unscaled d) <? float64_range * 10 ^ scale d
  else Z.abs (unscaled d) * 10 ^ (- scale d) <? float64_range.

(** ** The view types (main.go, lines 461-475) *)

Module Product.
(** [getOrderDetails] and [GenerateCSVReport] use [product.Quantity], a
    field the declaration at lines 469-475 omits; the record has it, and
    the two grouped reads leave it at Go's zero value. *)
Record t := mk {
  ID : Z;
  Name : string;
  Price : Decimal;
  Description : string;
  ImageURL : string;
  Quantity : Z
}.
End Product.

Module OrderWithProducts.
Record t := mk {
  ID : Z;
  CustomerID : Z;
  Date : Time;
  Status : string;
  Products : list Product.t
}.
End OrderWithProducts.

Abbreviation OWP := OrderWithProducts.t.

(** ** An order without a promise

    PostgreSQL returns the rows of a [SELECT] without [ORDER BY] in an order
    of its choosing, and Go ranges over a map in an order of its choosing.
    Both are modelled by [shuffle], which rearranges a list as directed by a
    list of picks: the element at the head is inserted into the shuffled
    tail at the position the pick names. *)

Definition insert_at {A} (i : nat) (x : A) (l : list A) : list A :=
  take i l ++ x :: drop i l.

Fixpoint shuffle {A} (picks : list nat) (l : list A) : list A :=
  match l with
  | [] => []
  | x :: l' =>
      let rest := shuffle (tail picks) l' in
      insert_at (Nat.modulo (hd 0%nat picks) (S (length rest))) x rest
  end.

(** ** The rows of the two grouped reads

    One record per [SELECT] list; [description] and [image_url] are the two
    columns the schema leaves nullable, and [price] is a [DECIMAL] without
    precision, which holds numbers of any size. *)

Module CustomerOrdersRow.
(* SELECT o.id, o.date, o.status, p.id, p.name, p.price, p.description, p.image_url *)
Record t := mk {
  order_id : Z;
  date : Time;
  status : string;
  product_id : Z;
  product_name : string;
  price : Decimal;
  description : option string;
  image_url : option string
}.
End CustomerOrdersRow.

Module AllOrdersRow.
(* SELECT o.id, o.customer_id, o.date, o.status, p.id, p.name, p.price, p.description, p.image_url *)
Record t := mk {
  order_id : Z;
  customer_id : Z;
  date : Time;
  status : string;
  product_id : Z;
  product_name : string;
  price : Decimal;
  description : option string;
  image_url : option string
}.
End AllOrdersRow.

(** [rows.Scan] converts the columns in order and returns the first error.

    [rows.Scan] into a Go [string]: database/sql refuses NULL. *)
Definition scan_string (col : string) (v : option string) : Result string :=
  match v with
  | Some s => Ok s
  | None => Err (ErrScanNull col)
  end.

(** [rows.Scan] into a Go [float64]. *)
Definition scan_float64 (col : string) (v : Decimal) : Result Decimal :=
  if fits_float64 v then Ok v else Err (ErrScanRange col).

(** The [Product{...}] literal both grouped reads build (lines 337-343,
    350-356, 427-433, 441-447). *)
Definition product_literal (productID : Z) (productName : string)
    (productPrice : Decimal) (productDescription imageURL : string) : Product.t :=
  {| Product.ID := productID;
     Product.Name := productName;
     Product.Price := productPrice;
     Product.Description := productDescription;
     Product.ImageURL := imageURL;
     Product.Quantity := 0 |}.

(** [order.Products = append(order.Products, p)] through the pointer stored
    in the map. *)
Definition append_product (order : OWP) (p : Product.t) : OWP :=
  {| OrderWithProducts.ID := OrderWithProducts.ID order;
     OrderWithProducts.CustomerID := OrderWithProducts.CustomerID order;
     OrderWithProducts.Date := OrderWithProducts.Date order;
     OrderWithProducts.Status := OrderWithProducts.Status order;
     OrderWithProducts.Products := OrderWithProducts.Products order ++ [p] |}.

(** The [if order, ok := orders[orderID]; ok { ... } else { ... }] of both
    loops; [fresh] is the literal of the [else] branch. *)
Definition group_row (orders : gmap Z OWP) (orderID : Z) (fresh : OWP) (p : Product.t)
    : gmap Z OWP :=
  match orders !! orderID with
  | Some order => <[orderID := append_product order p]> orders
  | None => <[orderID := fresh]> orders
  end.

(** "Convert map to slice": [for _, order := range orders]. *)
Definition map_values (picks : list nat) (orders : gmap Z OWP) : list OWP :=
  shuffle picks (snd <$> map_to_list orders).

(** *** getCustomerOrdersWithProducts, lines 322-367 *)

Module CustomerOrders.
Import CustomerOrdersRow.

(** One [rows.Scan]: the destinations, in order. *)
Definition scan (r : t) : Result (Z * Time * string * Z * string * Decimal * string * string) :=
  match scan_float64 "price" (price r) with
  | Err e => Err e
  | Ok productPrice =>
      match scan_string "description" (description r) with
      | Err e => Err e
      | Ok productDescription =>
          match scan_string "image_url" (image_url r) with
          | Err e => Err e
          | Ok imageURL =>
              Ok (order_id r, date r, status r, product_id r, product_name r,
                  productPrice, productDescription, imageURL)
          end
      end
  end.

Fixpoint loop (rows : list t) (orders : gmap Z OWP) : Result (gmap Z OWP) :=
  match rows with
  | [] => Ok orders
  | r :: rows' =>
      match scan r with
      | Err e => Err e
      | Ok (orderID, orderDate, orderStatus, productID, productName, productPrice,
            productDescription, imageURL) =>
          let p := product_literal productID productName productPrice
                     productDescription imageURL in
          loop rows'
            (group_row orders orderID
               {| OrderWithProducts.ID := orderID;
                  OrderWithProducts.CustomerID := 0;
                  OrderWithProducts.Date := orderDate;
                  OrderWithProducts.Status := orderStatus;
                  OrderWithProducts.Products := [p] |}
               p)
      end
  end.

(** The function from the cursor on. *)
Definition aggregate (picks : list nat) (rows : list t) : Result (list OWP) :=
  match loop rows ∅ with
  | Err e => Err e
  | Ok orders => Ok (map_values picks orders)
  end.

(** *** Vocabulary for the properties *)

(** A row [rows.Scan] accepts. *)
Definition scans (r : t) : Prop :=
  fits_float64 (price r) = true ∧ is_Some (description r) ∧ is_Some (image_url r).

(** The product entry of a row. *)
Definition entry (r : t) : Product.t :=
  product_literal (product_id r) (product_name r) (price r)
    (default "" (description r)) (default "" (image_url r)).

(** The record the first row of an order creates. *)
Definition fresh (r : t) : OWP :=
  {| OrderWithProducts.ID := order_id r;
     OrderWithProducts.CustomerID := 0;
     OrderWithProducts.Date := date r;
     OrderWithProducts.Status := status r;
     OrderWithProducts.Products := [entry r] |}.
End CustomerOrders.

(** *** getAllOrdersWithProducts, lines 412-458 *)

Module AllOrders.
Import AllOrdersRow.

Definition scan (r : t)
    : Result (Z * Z * Time * string * Z * string * Decimal * string * string) :=
  match scan_float64 "price" (price r) with
  | Err e => Err e
  | Ok productPrice =>
      match scan_string "description" (description r) with
      | Err e => Err e
      | Ok productDescription =>
          match scan_string "image_url" (image_url r) with
          | Err e => Err e
          | Ok imageURL =>
              Ok (order_id r, customer_id r, date r, status r, product_id r,
                  product_name r, productPrice, productDescription, imageURL)
          end
      end
  end.

Fixpoint loop (rows : list t) (orders : gmap Z OWP) : Result (gmap Z OWP) :=
  match rows with
  | [] => Ok orders
  | r :: rows' =>
      match scan r with
      | Err e => Err e
      | Ok (orderID, customerID, orderDate, orderStatus, productID, productName,
            productPrice, productDescription, imageURL) =>
          let p := product_literal productID productName productPrice
                     productDescription imageURL in
          loop rows'
            (group_row orders orderID
               {| OrderWithProducts.ID := orderID;
                  OrderWithProducts.CustomerID := customerID;
                  OrderWithProducts.Date := orderDate;
                  OrderWithProducts.Status := orderStatus;
                  OrderWithProducts.Products := [p] |}
               p)
      end
  end.

Definition aggregate (picks : list nat) (rows : list t) : Result (list OWP) :=
  match loop rows ∅ with
  | Err e => Err e
  | Ok orders => Ok (map_values picks orders)
  end.

(** *** Vocabulary for the properties *)

(** A row [rows.Scan] accepts. *)
Definition scans (r : t) : Prop :=
  fits_float64 (price r) = true ∧ is_Some (description r) ∧ is_Some (image_url r).

(** The product entry of a row. *)
Definition entry (r : t) : Product.t :=
  product_literal (product_id r) (product_name r) (price r)
    (default "" (description r)) (default "" (image_url r)).

(** The record the first row of an order creates. *)
Definition fresh (r : t) : OWP :=
  {| OrderWithProducts.ID := order_id r;
     OrderWithProducts.CustomerID := customer_id r;
     OrderWithProducts.Date := date r;
     OrderWithProducts.Status := status r;
     OrderWithProducts.Products := [entry r] |}.
End AllOrders.

(** ** The grouping of both loops, stated once *)

Section grouping_vocabulary.
Context {R : Type} (key : R → Z) (fresh : R → OWP) (entry : R → Product.t).

(** One turn of either loop, for a row that scanned. *)
Definition step (orders : gmap Z OWP) (r : R) : gmap Z OWP :=
  group_row orders (key r) (fresh r) (entry r).

(** The rows bearing one order id, in arrival order. *)
Definition rows_of (id : Z) (rows : list R) : list R :=
  filter (λ r, key r = id) rows.

Definition grouped (rows : list R) (id : Z) : option OWP :=
  match rows_of id rows with
  | [] => None
  | r :: rest => Some (foldl append_product (fresh r) (entry <$> rest))
  end.
End grouping_vocabulary.

(** What "one record per order id, holding exactly the entries of its rows"
    says of a result [res] for the rows [rows]: the ids of [res] are
    pairwise distinct; they are the order ids of the rows; each record is
    the one its order's first row creates (with the one-element sequence of
    that row's entry), extended by the entries of the later rows of the same
    order, one append per row; so its products are the entries of its
    order's rows, each once, in arrival order. *)
Definition groups {R} (key : R → Z) (fresh : R → OWP) (entry : R → Product.t)
    (rows : list R) (res : list OWP) : Prop :=
  NoDup (OrderWithProducts.ID <$> res) ∧
  (∀ id, id ∈ OrderWithProducts.ID <$> res ↔ id ∈ key <$> rows) ∧
  (∀ o, o ∈ res →
     ∃ r rest, rows_of key (OrderWithProducts.ID o) rows = r :: rest ∧
               o = foldl append_product (fresh r) (entry <$> rest)) ∧
  (∀ o, o ∈ res →
     OrderWithProducts.Products o = entry <$> rows_of key (OrderWithProducts.ID o) rows).

(** ** The relational store

    The four tables of [initDB] (lines 91-122), a record per table with a
    field per column; [NOT NULL] columns hold a value, the others an
    [option]. *)

Module ProductRow.
Record t := mk {
  id : Z;
  name : string;
  price : Decimal;
  description : option string;
  image_url : option string
}.
End ProductRow.

Module CustomerRow.
Record t := mk {
  id : Z;
  name : string;
  email : string;
  password : string
}.
End CustomerRow.

Module OrderRow.
Record t := mk {
  id : Z;
  customer_id : Z;
  date : Time;
  status : string
}.
End OrderRow.

Module OrderProductRow.
Record t := mk {
  order_id : Z;
  product_id : Z
}.
End OrderProductRow.

(** The statement [createTableSQL] as data: per table, its columns with
    their type and whether they are [NOT NULL] (a [PRIMARY KEY] column is). *)
Definition createTableSQL : list (string * list (string * string * bool)) :=
  [ ("products",
      [ ("id", "SERIAL", true); ("name", "VARCHAR(255)", true);
        ("price", "DECIMAL", true); ("description", "TEXT", false);
        ("image_url", "VARCHAR(255)", false) ]);
    ("customers",
      [ ("id", "SERIAL", true); ("name", "VARCHAR(255)", true);
        ("email", "VARCHAR(255)", true); ("password", "VARCHAR(255)", true) ]);
    ("orders",
      [ ("id", "SERIAL", true); ("customer_id", "INT", true);
        ("date", "TIMESTAMP", true); ("status", "VARCHAR(50)", true) ]);
    ("order_products",
      [ ("order_id", "INT", true); ("product_id", "INT", true) ]) ].

Definition columns_of (table : string)
    (ddl : list (string * list (string * string * bool))) : list string :=
  match list_find (λ t, fst t = table) ddl with
  | Some (_, (_, cols)) => (λ c, fst (fst c)) <$> cols
  | None => []
  end.

Definition has_column (ddl : list (string * list (string * string * bool)))
    (table col : string) : bool :=
  bool_decide (col ∈ columns_of table ddl).

(** The database.  Two statements of the program name a column that
    [createTableSQL] does not create: [op.quantity] (line 235) and
    [customer_email] of [orders] (line 498).  [CREATE TABLE IF NOT EXISTS]
    leaves a table that is already there as it is, so a database may still
    have them: each is modelled as absent ([None]) or present, and then
    giving the (nullable) value of a row by its key. *)
Record DB := {
  reachable : bool;
  products : list ProductRow.t;
  customers : list CustomerRow.t;
  orders : list OrderRow.t;
  order_products : list OrderProductRow.t;
  orders_customer_email : option (Z → option string);
  order_products_quantity : option (Z → Z → option Z)
}.

(** [initDB] run against a database without tables: the four tables are
    created empty, with the columns of [createTableSQL]. *)
Definition initDB : DB :=
  {| reachable := true;
     products := [];
     customers := [];
     orders := [];
     order_products := [];
     orders_customer_email :=
       if has_column createTableSQL "orders" "customer_email"
       then Some (λ _, None) else None;
     order_products_quantity :=
       if has_column createTableSQL "order_products" "quantity"
       then Some (λ _ _, None) else None |}.

(** The database without the orders that bear the id [id]. *)
Definition remove_order (id : Z) (db : DB) : DB :=
  {| reachable := reachable db;
     products := products db;
     customers := customers db;
     orders := filter (λ o, OrderRow.id o ≠ id) (orders db);
     order_products := order_products db;
     orders_customer_email := orders_customer_email db;
     order_products_quantity := order_products_quantity db |}.

(** The rows of a database in tables as [initDB] creates them: without the
    two columns [createTableSQL] does not name. *)
Definition on_initDB_tables (db : DB) : DB :=
  {| reachable := reachable db;
     products := products db;
     customers := customers db;
     orders := orders db;
     order_products := order_products db;
     orders_customer_email := orders_customer_email initDB;
     order_products_quantity := order_products_quantity initDB |}.

(** The order PostgreSQL returns rows in, and the order Go ranges over the
    map in, for one call. *)
Record Choices := {
  row_order : list nat;
  map_order : list nat
}.

(** [FROM orders o JOIN order_products op ON o.id = op.order_id
     JOIN products p ON op.product_id = p.id] *)
Definition orders_join (db : DB)
    : list (OrderRow.t * OrderProductRow.t * ProductRow.t) :=
  o ← orders db;
  op ← filter (λ op, OrderRow.id o = OrderProductRow.order_id op) (order_products db);
  p ← filter (λ p, OrderProductRow.product_id op = ProductRow.id p) (products db);
  [(o, op, p)].

(** *** getOrderDetails, lines 231-262 *)

Module OrderDetailsRow.
(* SELECT o.id, o.customer_id, o.date, o.status, p.id, p.name, p.price, op.quantity *)
Record t := mk {
  order_id : Z;
  customer_id : Z;
  date : Time;
  status : string;
  product_id : Z;
  product_name : string;
  price : Decimal;
  quantity : option Z
}.
End OrderDetailsRow.

(** [rows.Scan] into a Go [int]. *)
Definition scan_int (col : string) (v : option Z) : Result Z :=
  match v with
  | Some n => Ok n
  | None => Err (ErrScanNull col)
  end.

Module OrderDetails.
Import OrderDetailsRow.

(** The [SELECT] list of lines 234-235. *)
Definition select (op_quantity : Z → Z → option Z)
    (j : OrderRow.t * OrderProductRow.t * ProductRow.t) : t :=
  let '(o, op, p) := j in
  {| order_id := OrderRow.id o;
     customer_id := OrderRow.customer_id o;
     date := OrderRow.date o;
     status := OrderRow.status o;
     product_id := ProductRow.id p;
     product_name := ProductRow.name p;
     price := ProductRow.price p;
     quantity := op_quantity (OrderProductRow.order_id op) (OrderProductRow.product_id op) |}.

(** [db.Query] of lines 233-240, [$1 = orderID], [$2 = customerID]. *)
Definition query (db : DB) (ch : Choices) (orderID customerID : Z) : Result (list t) :=
  if negb (reachable db) then Err ErrUnreachable else
  match order_products_quantity db with
  | None => Err (ErrUndefinedColumn "op.quantity")
  | Some op_quantity =>
      Ok (shuffle (row_order ch)
            (select op_quantity
             <$> filter (λ j, OrderRow.id j.1.1 = orderID ∧
                              OrderRow.customer_id j.1.1 = customerID)
                        (orders_join db)))
  end.

(** The [Product] one turn of the loop appends. *)
Definition item (r : t) : Product.t :=
  {| Product.ID := product_id r;
     Product.Name := product_name r;
     Product.Price := price r;
     Product.Description := "";
     Product.ImageURL := "";
     Product.Quantity := default 0 (quantity r) |}.

(** The record of lines 246-250, before any row is read. *)
Definition initial (orderID customerID : Z) : OWP :=
  {| OrderWithProducts.ID := orderID;
     OrderWithProducts.CustomerID := customerID;
     OrderWithProducts.Date := 0;
     OrderWithProducts.Status := "";
     OrderWithProducts.Products := [] |}.

(** The [for rows.Next()] of lines 252-259: every row overwrites the four
    order fields and appends a product. *)
Fixpoint loop (rows : list t) (order : OWP) : Result OWP :=
  match rows with
  | [] => Ok order
  | r :: rows' =>
      match scan_float64 "price" (price r) with
      | Err e => Err e
      | Ok productPrice =>
          match scan_int "quantity" (quantity r) with
          | Err e => Err e
          | Ok productQuantity =>
              let product :=
                {| Product.ID := product_id r;
                   Product.Name := product_name r;
                   Product.Price := productPrice;
                   Product.Description := "";
                   Product.ImageURL := "";
                   Product.Quantity := productQuantity |} in
              loop rows'
                {| OrderWithProducts.ID := order_id r;
                   OrderWithProducts.CustomerID := customer_id r;
                   OrderWithProducts.Date := date r;
                   OrderWithProducts.Status := status r;
                   OrderWithProducts.Products :=
                     OrderWithProducts.Products order ++ [product] |}
          end
      end
  end.

(** A row [rows.Scan] accepts. *)
Definition scans (r : t) : Prop :=
  fits_float64 (price r) = true ∧ is_Some (quantity r).
End OrderDetails.

Definition getOrderDetails (db : DB) (ch : Choices) (orderID customerID : Z) : Result OWP :=
  match OrderDetails.query db ch orderID customerID with
  | Err e => Err e
  | Ok rows => OrderDetails.loop rows (OrderDetails.initial orderID customerID)
  end.

(** *** The queries of the two grouped reads *)

(** The [SELECT] list of lines 310-311. *)
Definition select_customer_orders (j : OrderRow.t * OrderProductRow.t * ProductRow.t)
    : CustomerOrdersRow.t :=
  let '(o, op, p) := j in
  {| CustomerOrdersRow.order_id := OrderRow.id o;
     CustomerOrdersRow.date := OrderRow.date o;
     CustomerOrdersRow.status := OrderRow.status o;
     CustomerOrdersRow.product_id := ProductRow.id p;
     CustomerOrdersRow.product_name := ProductRow.name p;
     CustomerOrdersRow.price := ProductRow.price p;
     CustomerOrdersRow.description := ProductRow.description p;
     CustomerOrdersRow.image_url := ProductRow.image_url p |}.

(** [db.Query] of lines 309-316, [$1 = customerID]. *)
Definition query_customer_orders (db : DB) (ch : Choices) (customerID : Z)
    : Result (list CustomerOrdersRow.t) :=
  if negb (reachable db) then Err ErrUnreachable else
  Ok (shuffle (row_order ch)
        (select_customer_orders
         <$> filter (λ j, OrderRow.customer_id j.1.1 = customerID) (orders_join db))).

Definition getCustomerOrdersWithProducts (db : DB) (ch : Choices) (customerID : Z)
    : Result (list OWP) :=
  match query_customer_orders db ch customerID with
  | Err e => Err e
  | Ok rows => CustomerOrders.aggregate (map_order ch) rows
  end.

(** The [SELECT] list of lines 401-402. *)
Definition select_all_orders (j : OrderRow.t * OrderProductRow.t * ProductRow.t)
    : AllOrdersRow.t :=
  let '(o, op, p) := j in
  {| AllOrdersRow.order_id := OrderRow.id o;
     AllOrdersRow.customer_id := OrderRow.customer_id o;
     AllOrdersRow.date := OrderRow.date o;
     AllOrdersRow.status := OrderRow.status o;
     AllOrdersRow.product_id := ProductRow.id p;
     AllOrdersRow.product_name := ProductRow.name p;
     AllOrdersRow.price := ProductRow.price p;
     AllOrdersRow.description := ProductRow.description p;
     AllOrdersRow.image_url := ProductRow.image_url p |}.

(** [db.Query] of lines 400-406. *)
Definition query_all_orders (db : DB) (ch : Choices) : Result (list AllOrdersRow.t) :=
  if negb (reachable db) then Err ErrUnreachable else
  Ok (shuffle (row_order ch) (select_all_orders <$> orders_join db)).

Definition getAllOrdersWithProducts (db : DB) (ch : Choices) : Result (list OWP) :=
  match query_all_orders db ch with
  | Err e => Err e
  | Ok rows => AllOrders.aggregate (map_order ch) rows
  end.

(** ** The rate limiter (lines 28-32, 575-578)

    [NewRateLimiter] returns a [*rate.Limiter] of golang.org/x/time/rate.
    That package is not part of the repository; the model follows its
    documentation: a limiter [NewLimiter(r, b)] is "a token bucket of size
    b, initially full and refilled at rate r tokens per second", and [Allow]
    takes a token when there is one.  Tokens are counted in units of 10^-9
    token, so that the refill over a whole number of nanoseconds is exact. *)

(** [time.Duration]: nanoseconds. *)
Definition Duration := Z.
Definition Second : Duration := 1000000000.
Definition Minute : Duration := 60 * Second.
Definition Hour : Duration := 60 * Minute.

(** [int(window.Seconds())]: the whole seconds of a duration. *)
Definition Seconds (d : Duration) : Z := Z.quot d Second.

Module rate.
Record Limiter := mk {
  limit : Z;       (* tokens per second *)
  burst : Z;       (* bucket size, tokens *)
  tokens : Z;      (* 10^-9 tokens *)
  last : Time      (* when [tokens] was last updated *)
}.

Definition NewLimiter (r : Z) (b : Z) : Limiter :=
  {| limit := r; burst := b; tokens := b * Second; last := 0 |}.

(** The bucket at [now]: refilled for the time since [last], up to
    [burst]. *)
Definition advance (lim : Limiter) (now : Time) : Z :=
  Z.min (burst lim * Second) (tokens lim + Z.max 0 (now - last lim) * limit lim).

(** [lim.Allow()] at time [now]. *)
Definition Allow (lim : Limiter) (now : Time) : bool * Limiter :=
  let tokens := advance lim now in
  if Second <=? tokens
  then (true, {| limit := limit lim; burst := burst lim;
                 tokens := tokens - Second; last := now |})
  else (false, lim).
End rate.

(** Line 576-578: [limit] becomes the refill rate per second and the seconds
    of [window] become the bucket size. *)
Definition NewRateLimiter (limit : Z) (window : Duration) : rate.Limiter :=
  rate.NewLimiter limit (Seconds window).

(** Lines 29 and 32. *)
Definition rateLimiter : rate.Limiter := NewRateLimiter 100 Minute.
Definition taskLimiter : rate.Limiter := NewRateLimiter 1 (24 * Hour).

(** [rateLimiter.Allow(r.RemoteAddr)], [taskLimiter.Allow("background-task")]:
    the program passes a key, but a [*rate.Limiter] is a single bucket and has
    no state per key, so the key cannot select one. *)
Definition Allow (lim : rate.Limiter) (key : string) (now : Time) : bool * rate.Limiter :=
  rate.Allow lim now.

(** The answers to the calls [Allow(k)] for the keys [keys], one after the
    other at the same instant. *)
Fixpoint allow_each (lim : rate.Limiter) (keys : list string) (now : Time)
    : list bool * rate.Limiter :=
  match keys with
  | [] => ([], lim)
  | k :: keys' =>
      let '(ok, lim') := Allow lim k now in
      let '(oks, lim'') := allow_each lim' keys' now in
      (ok :: oks, lim'')
  end.

(** ** The process and its collaborators *)

(** What [smtpConfig] holds (lines 55-60). *)
Record SMTPConfig := {
  SMTPServer : string;
  SMTPPort : Z;
  SMTPUsername : string;
  SMTPPassword : string
}.

(** One call of [smtp.SendMail(addr, auth, from, to, msg)]. *)
Record Mail := {
  mail_addr : string;
  mail_from : string;
  mail_to : list string;
  mail_msg : string
}.

(** One line written through [log]: the text and, where the program logs
    one, the error value. *)
Record LogLine := {
  log_text : string;
  log_err : option error
}.

(** A cell of the CSV report: the value that [strconv] or [Format] renders;
    the rendering itself is outside the model. *)
Inductive Cell :=
| CellText (s : string)
| CellInt (n : Z)                 (* strconv.Itoa *)
| CellTime (t : Time)             (* Format("2006-01-02 15:04:05") *)
| CellPrice (d : Decimal).        (* strconv.FormatFloat(_, 'f', 2, 64) *)

(** What the disk does with the report file.  [os.Create] truncates the
    file.  The csv writer buffers what it is handed, so an error of the disk
    shows in a call of [writer.Write] only when that call hands the buffer to
    the file, and otherwise in the deferred [Flush], whose error the program
    does not read.  The records are counted from 0, the header; a record the
    error tears apart counts as not kept. *)
Inductive Disk :=
| DiskOk                                (* every call succeeds *)
| CreateFails                           (* os.Create returns an error *)
| WriteFails (call : nat) (kept : nat)  (* call number [call] of writer.Write returns an
                                           error; [kept] records had reached the file *)
| FlushFails (kept : nat).              (* every writer.Write returns nil and the deferred
                                           Flush fails; [kept] records had reached the file *)

(** A time zone as package time looks it up: the offset in force at an
    instant, in seconds east of UTC, and the instants between which it is in
    force. *)
Record Zone := {
  zone_offset : Z;
  zone_start : Time;
  zone_end : Time
}.

(** [*time.Location], by its lookup. *)
Definition Location := Time → Zone.

Definition UTC : Location :=
  λ _, {| zone_offset := 0;
          zone_start := - 2 ^ 63 * Second;
          zone_end := (2 ^ 63 - 1) * Second |}.

(** What the program cannot know of time: the zone of [time.Local], how long
    a sweep takes (from the reading of the clock in [Allow] to the
    [time.Now()] of line 486), and by how much [time.Sleep], which pauses
    "for at least the duration d", oversleeps.  The two durations are given
    for the instant at which they begin, so that they may differ from turn
    to turn; a sweep sends a query to the database, which takes time. *)
Record Timing := {
  local : Location;
  sweep_time : Time → positive;
  sleep_lag : Time → N
}.

(** The state a handler or the background task runs in: the package
    variables [db], [rateLimiter], [taskLimiter], [smtpConfig], and the world
    around the process (the clock, the choices no rule fixes, the log, the
    files written, the mail server). *)
Record World := {
  w_db : DB;
  w_now : Time;
  w_choices : Choices;
  w_rateLimiter : rate.Limiter;
  w_taskLimiter : rate.Limiter;
  w_smtpConfig : SMTPConfig;
  w_smtp : Mail → option error;      (* the answer of the mail server *)
  w_mails : list Mail;               (* the calls of smtp.SendMail so far *)
  w_log : list LogLine;
  w_disk : Disk;                     (* the disk under the report file *)
  w_timing : Timing;                 (* the zone, and what sweeps and sleeps take *)
  w_files : gmap string (list (list Cell))
}.

(** The disk takes the whole report. *)
Definition w_disk_ok (w : World) : bool :=
  match w_disk w with
  | DiskOk => true
  | _ => false
  end.

Definition set_db (db : DB) (w : World) : World :=
  {| w_db := db; w_now := w_now w; w_choices := w_choices w;
     w_rateLimiter := w_rateLimiter w; w_taskLimiter := w_taskLimiter w;
     w_smtpConfig := w_smtpConfig w; w_smtp := w_smtp w; w_mails := w_mails w;
     w_log := w_log w; w_disk := w_disk w; w_timing := w_timing w; w_files := w_files w |}.

Definition set_now (t : Time) (w : World) : World :=
  {| w_db := w_db w; w_now := t; w_choices := w_choices w;
     w_rateLimiter := w_rateLimiter w; w_taskLimiter := w_taskLimiter w;
     w_smtpConfig := w_smtpConfig w; w_smtp := w_smtp w; w_mails := w_mails w;
     w_log := w_log w; w_disk := w_disk w; w_timing := w_timing w; w_files := w_files w |}.

Definition set_rateLimiter (lim : rate.Limiter) (w : World) : World :=
  {| w_db := w_db w; w_now := w_now w; w_choices := w_choices w;
     w_rateLimiter := lim; w_taskLimiter := w_taskLimiter w;
     w_smtpConfig := w_smtpConfig w; w_smtp := w_smtp w; w_mails := w_mails w;
     w_log := w_log w; w_disk := w_disk w; w_timing := w_timing w; w_files := w_files w |}.

Definition set_taskLimiter (lim : rate.Limiter) (w : World) : World :=
  {| w_db := w_db w; w_now := w_now w; w_choices := w_choices w;
     w_rateLimiter := w_rateLimiter w; w_taskLimiter := lim;
     w_smtpConfig := w_smtpConfig w; w_smtp := w_smtp w; w_mails := w_mails w;
     w_log := w_log w; w_disk := w_disk w; w_timing := w_timing w; w_files := w_files w |}.

Definition add_mail (m : Mail) (w : World) : World :=
  {| w_db := w_db w; w_now := w_now w; w_choices := w_choices w;
     w_rateLimiter := w_rateLimiter w; w_taskLimiter := w_taskLimiter w;
     w_smtpConfig := w_smtpConfig w; w_smtp := w_smtp w; w_mails := w_mails w ++ [m];
     w_log := w_log w; w_disk := w_disk w; w_timing := w_timing w; w_files := w_files w |}.

Definition set_file (name : string) (content : list (list Cell)) (w : World) : World :=
  {| w_db := w_db w; w_now := w_now w; w_choices := w_choices w;
     w_rateLimiter := w_rateLimiter w; w_taskLimiter := w_taskLimiter w;
     w_smtpConfig := w_smtpConfig w; w_smtp := w_smtp w; w_mails := w_mails w;
     w_log := w_log w; w_disk := w_disk w; w_timing := w_timing w;
     w_files := <[name := content]> (w_files w) |}.

(** [log.Println(text, err)]; also [log.Printf], whose text is then the
    formatted message up to the error. *)
Definition log_Println (text : string) (err : option error) (w : World) : World :=
  {| w_db := w_db w; w_now := w_now w; w_choices := w_choices w;
     w_rateLimiter := w_rateLimiter w; w_taskLimiter := w_taskLimiter w;
     w_smtpConfig := w_smtpConfig w; w_smtp := w_smtp w; w_mails := w_mails w;
     w_log := w_log w ++ [ {| log_text := text; log_err := err |} ];
     w_disk := w_disk w; w_timing := w_timing w; w_files := w_files w |}.

(** *** net/http, as far as the handlers use it *)

(** What a handler writes: text, or the output of [json.Marshal] on a slice
    of orders ([null] for the nil slice). *)
Inductive Bytes :=
| Text (s : string)
| JSONNull
| JSONArray (orders : list OWP).

(** What is left of [r.Body] once [ioutil.ReadAll] and [json.Unmarshal]
    have run on it; encoding/json itself is outside the model. *)
Inductive RequestBody (A : Type) :=
| Unreadable (e : error)          (* ReadAll fails *)
| NotJSON (e : error)             (* Unmarshal fails *)
| Decoded (a : A).                (* Unmarshal fills the value *)
Arguments Unreadable {A} e.
Arguments NotJSON {A} e.
Arguments Decoded {A} a.

Module OrderItem.
(** Modelled from the spec: the element type of [orderRequest.Products] is
    not declared in the repository; the request body is
    [{customer_id:int, products:[{product_id:int, quantity:int}, ...]}]. *)
Record t := mk {
  ProductID : Z;
  Quantity : Z
}.
End OrderItem.

Module OrderRequest.
(** Modelled from the spec: [OrderRequest] is not declared in the
    repository; the handler uses its fields [CustomerID] and [Products].
    A field the body leaves out has Go's zero value. *)
Record t := mk {
  CustomerID : Z;
  Products : list OrderItem.t
}.
End OrderRequest.

Record Request := {
  Header : gmap string string;
  Body : RequestBody OrderRequest.t;
  RemoteAddr : string
}.

(** [r.Header.Get(key)]: the value, or the empty string. *)
Definition Header_Get (r : Request) (key : string) : string :=
  default "" (Header r !! key).

Record ResponseWriter := {
  rw_header : gmap string string;
  rw_status : option Z;              (* set by the first WriteHeader or Write *)
  rw_body : list Bytes
}.

Definition new_ResponseWriter : ResponseWriter :=
  {| rw_header := ∅; rw_status := None; rw_body := [] |}.

Definition WriteHeader (code : Z) (rw : ResponseWriter) : ResponseWriter :=
  {| rw_header := rw_header rw;
     rw_status := match rw_status rw with Some c => Some c | None => Some code end;
     rw_body := rw_body rw |}.

Definition Write (b : Bytes) (rw : ResponseWriter) : ResponseWriter :=
  {| rw_header := rw_header rw;
     rw_status := match rw_status rw with Some c => Some c | None => Some 200 end;
     rw_body := rw_body rw ++ [b] |}.

Definition Header_Set (key value : string) (rw : ResponseWriter) : ResponseWriter :=
  {| rw_header := <[key := value]> (rw_header rw);
     rw_status := rw_status rw;
     rw_body := rw_body rw |}.

Definition StatusOK : Z := 200.
Definition StatusCreated : Z := 201.
Definition StatusBadRequest : Z := 400.
Definition StatusUnauthorized : Z := 401.
Definition StatusTooManyRequests : Z := 429.
Definition StatusInternalServerError : Z := 500.

(** The responses of the program, each a [w.WriteHeader] and a [w.Write];
    names for the properties below. *)
Definition unauthorized (rw : ResponseWriter) : ResponseWriter :=
  Write (Text "Unauthorized") (WriteHeader StatusUnauthorized rw).

Definition internal_server_error (rw : ResponseWriter) : ResponseWriter :=
  Write (Text "Internal Server Error") (WriteHeader StatusInternalServerError rw).

Definition bad_request (text : string) (rw : ResponseWriter) : ResponseWriter :=
  Write (Text text) (WriteHeader StatusBadRequest rw).

Definition ok_json (rw : ResponseWriter) (orders : list OWP) : ResponseWriter :=
  Write (match orders with [] => JSONNull | _ => JSONArray orders end)
    (WriteHeader StatusOK (Header_Set "Content-Type" "application/json" rw)).

(** [http.HandlerFunc]. *)
Definition HandlerFunc := ResponseWriter → Request → World → ResponseWriter * World.

(** ** Access control and throttling (lines 24-26, 535-573) *)

Definition customerToken : string := "customer_token".
Definition adminToken : string := "admin_token".

Definition AuthMiddleware (next : HandlerFunc) (role : string) : HandlerFunc :=
  λ rw r w,
    let token := Header_Get r "Authorization" in
    if decide (role = "customer") then
      if decide (token ≠ customerToken)
      then (Write (Text "Unauthorized") (WriteHeader StatusUnauthorized rw), w)
      else next rw r w
    else if decide (role = "admin") then
      if decide (token ≠ adminToken)
      then (Write (Text "Unauthorized") (WriteHeader StatusUnauthorized rw), w)
      else next rw r w
    else
      (Write (Text "Internal Server Error") (WriteHeader StatusInternalServerError rw), w).

Definition RateLimitMiddleware (next : HandlerFunc) : HandlerFunc :=
  λ rw r w,
    let '(ok, lim) := Allow (w_rateLimiter w) (RemoteAddr r) (w_now w) in
    let w := set_rateLimiter lim w in
    if negb ok
    then (Write (Text "Rate limit exceeded") (WriteHeader StatusTooManyRequests rw), w)
    else next rw r w.

(** ** Customer view (lines 266-305) *)

(** [strconv.Atoi]: an optional sign, then one or more decimal digits, the
    value within the 64 bits of [int]. *)
Definition digit (c : ascii) : option Z :=
  let n := Z.of_N (Ascii.N_of_ascii c) in
  if (48 <=? n) && (n <=? 57) then Some (n - 48) else None.

Fixpoint digits (s : string) (acc : Z) : option Z :=
  match s with
  | EmptyString => Some acc
  | String c s' =>
      match digit c with
      | Some d => digits s' (acc * 10 + d)
      | None => None
      end
  end.

Definition minInt : Z := - 2 ^ 63.
Definition maxInt : Z := 2 ^ 63 - 1.

(** A leading ['-'] or ['+'], and what follows it. *)
Definition split_sign (s : string) : bool * string :=
  match s with
  | String c s' =>
      if Ascii.eqb c "-" then (true, s')
      else if Ascii.eqb c "+" then (false, s')
      else (false, s)
  | EmptyString => (false, s)
  end.

Definition Atoi (s : string) : Result Z :=
  let '(neg, body) := split_sign s in
  match body with
  | EmptyString => Err (ErrSyntax "invalid syntax")
  | _ =>
      match digits body 0 with
      | None => Err (ErrSyntax "invalid syntax")
      | Some n =>
          let v := if neg then - n else n in
          if (minInt <=? v) && (v <=? maxInt) then Ok v
          else Err (ErrSyntax "value out of range")
      end
  end.

Definition getCustomerID (r : Request) : Z :=
  let customerIDHeader := Header_Get r "X-Customer-ID" in
  match Atoi customerIDHeader with
  | Err _ => 0
  | Ok customerID => customerID
  end.

(** [json.Marshal(orders)]: a nil slice encodes as [null].  An order holds
    nothing that encoding/json rejects except a price that is not a number
    or is infinite, which a [Decimal] that [rows.Scan] accepted cannot be. *)
Definition json_Marshal (orders : list OWP) : Result Bytes :=
  match orders with
  | [] => Ok JSONNull
  | _ => Ok (JSONArray orders)
  end.

Definition CustomerOrdersHandler : HandlerFunc :=
  λ rw r w,
    let customerID := getCustomerID r in
    match getCustomerOrdersWithProducts (w_db w) (w_choices w) customerID with
    | Err err =>
        let w := log_Println "Error retrieving customer orders:" (Some err) w in
        (Write (Text "Internal Server Error") (WriteHeader StatusInternalServerError rw), w)
    | Ok orders =>
        match json_Marshal orders with
        | Err err =>
            let w := log_Println "Error encoding customer orders to JSON:" (Some err) w in
            (Write (Text "Internal Server Error") (WriteHeader StatusInternalServerError rw), w)
        | Ok response =>
            (Write response
               (WriteHeader StatusOK (Header_Set "Content-Type" "application/json" rw)), w)
        end
    end.

(** ** Admin view (lines 372-396) *)

Definition AdminOrdersHandler : HandlerFunc :=
  λ rw r w,
    match getAllOrdersWithProducts (w_db w) (w_choices w) with
    | Err err =>
        let w := log_Println "Error retrieving orders:" (Some err) w in
        (Write (Text "Internal Server Error") (WriteHeader StatusInternalServerError rw), w)
    | Ok orders =>
        match json_Marshal orders with
        | Err err =>
            let w := log_Println "Error encoding orders to JSON:" (Some err) w in
            (Write (Text "Internal Server Error") (WriteHeader StatusInternalServerError rw), w)
        | Ok response =>
            (Write response
               (WriteHeader StatusOK (Header_Set "Content-Type" "application/json" rw)), w)
        end
    end.

(** A header value that reads as a decimal integer: an optional sign and
    then digits, at least one. *)
Definition is_digit (c : ascii) : bool :=
  let n := Z.of_N (Ascii.N_of_ascii c) in (48 <=? n) && (n <=? 57).

Fixpoint all_digits (s : string) : bool :=
  match s with
  | EmptyString => true
  | String c s' => is_digit c && all_digits s'
  end.

Definition decimal_integer (s : string) : bool :=
  let '(_, body) := split_sign s in
  negb (String.eqb body "") && all_digits body.


(** ** Order ingestion (lines 132-229) *)

(** [err.Error()]. *)
Definition Error (e : error) : string :=
  match e with
  | ErrUnreachable => "connection refused"
  | ErrUndefinedColumn col => "column " +:+ col +:+ " does not exist"
  | ErrScanNull col => "converting NULL in column " +:+ col +:+ " is unsupported"
  | ErrScanRange col => "converting column " +:+ col +:+ ": value out of range"
  | ErrConstraint name => "violates constraint " +:+ name
  | ErrValidation msg => msg
  | ErrSyntax msg => msg
  | ErrIO msg => msg
  end.

(** Modelled from the spec: [validateOrderRequest] is called at line 152 and
    defined nowhere in the repository.  "Reject (report a validation
    failure, not an internal error) if the customer id is missing/non-positive,
    or the product list is empty, or any quantity is non-positive." *)
Definition validateOrderRequest (orderRequest : OrderRequest.t) : option error :=
  if OrderRequest.CustomerID orderRequest <=? 0
  then Some (ErrValidation "customer id must be positive")
  else if bool_decide (OrderRequest.Products orderRequest = [])
  then Some (ErrValidation "products must not be empty")
  else if existsb (λ item, OrderItem.Quantity item <=? 0) (OrderRequest.Products orderRequest)
  then Some (ErrValidation "quantity must be positive")
  else None.

Definition insert_order (o : OrderRow.t) (db : DB) : DB :=
  {| reachable := reachable db;
     products := products db;
     customers := customers db;
     orders := orders db ++ [o];
     order_products := order_products db;
     orders_customer_email := orders_customer_email db;
     order_products_quantity := order_products_quantity db |}.

Definition insert_order_product (op : OrderProductRow.t) (quantity : Z)
    (op_quantity : Z → Z → option Z) (db : DB) : DB :=
  {| reachable := reachable db;
     products := products db;
     customers := customers db;
     orders := orders db;
     order_products := order_products db ++ [op];
     orders_customer_email := orders_customer_email db;
     order_products_quantity :=
       Some (λ order_id product_id,
               if decide (order_id = OrderProductRow.order_id op ∧
                          product_id = OrderProductRow.product_id op)
               then Some quantity
               else op_quantity order_id product_id) |}.

(** The next value of the [SERIAL] of [orders.id], taken to be one more than
    the largest id in the table. *)
Definition next_order_id (db : DB) : Z :=
  1 + foldr Z.max 0 (OrderRow.id <$> orders db).

(** Modelled from the spec: [createOrder] is called at line 160 and defined
    nowhere in the repository.  "Insert a new order row with the given
    customer id, current timestamp, and an initial status (e.g. "Pending");
    obtain the generated order id."  The insert obeys the foreign key of
    [createTableSQL]. *)
Definition createOrder (orderRequest : OrderRequest.t) (w : World) : Result Z * World :=
  let db := w_db w in
  if negb (reachable db) then (Err ErrUnreachable, w)
  else if bool_decide (OrderRequest.CustomerID orderRequest ∈ CustomerRow.id <$> customers db)
  then
    let orderID := next_order_id db in
    (Ok orderID,
     set_db (insert_order
               {| OrderRow.id := orderID;
                  OrderRow.customer_id := OrderRequest.CustomerID orderRequest;
                  OrderRow.date := w_now w;
                  OrderRow.status := "Pending" |} db) w)
  else (Err (ErrConstraint "orders_customer_id_fkey"), w).

(** Modelled from the spec: [associateProducts] is called at line 169 and
    defined nowhere in the repository.  "Insert one association row per
    requested product with its quantity, referencing the new order id."  Each
    insert is a statement of its own (the reference behaviour has no
    transaction) and obeys the keys of [createTableSQL]; it names the
    [quantity] column. *)
Fixpoint associateProducts (orderID : Z) (items : list OrderItem.t) (w : World)
    : option error * World :=
  match items with
  | [] => (None, w)
  | item :: items' =>
      let db := w_db w in
      if negb (reachable db) then (Some ErrUnreachable, w) else
      match order_products_quantity db with
      | None => (Some (ErrUndefinedColumn "quantity"), w)
      | Some op_quantity =>
          let op := {| OrderProductRow.order_id := orderID;
                       OrderProductRow.product_id := OrderItem.ProductID item |} in
          if negb (bool_decide (OrderItem.ProductID item ∈ ProductRow.id <$> products db))
          then (Some (ErrConstraint "order_products_product_id_fkey"), w)
          else if bool_decide ((orderID, OrderItem.ProductID item) ∈
                                 (λ op, (OrderProductRow.order_id op,
                                         OrderProductRow.product_id op))
                                 <$> order_products db)
          then (Some (ErrConstraint "order_products_pkey"), w)
          else associateProducts orderID items'
                 (set_db (insert_order_product op (OrderItem.Quantity item) op_quantity db) w)
      end
  end.

Definition csv_header : list Cell :=
  CellText <$> ["Order ID"; "Customer ID"; "Date"; "Status";
                "Product ID"; "Product Name"; "Price"; "Quantity"].

Definition csv_row (order : OWP) (product : Product.t) : list Cell :=
  [ CellInt (OrderWithProducts.ID order);
    CellInt (OrderWithProducts.CustomerID order);
    CellTime (OrderWithProducts.Date order);
    CellText (OrderWithProducts.Status order);
    CellInt (Product.ID product);
    CellText (Product.Name product);
    CellPrice (Product.Price product);
    CellInt (Product.Quantity product) ].

(** The records [GenerateCSVReport] hands to [writer.Write], in order: the
    header (lines 206-209) and a row per product (lines 212-226). *)
Definition csv_records (order : OWP) : list (list Cell) :=
  csv_header :: (csv_row order <$> OrderWithProducts.Products order).

(** [GenerateCSVReport]: once [os.Create] has succeeded the file is
    truncated, whatever follows.  An error of a [writer.Write] is returned
    (lines 207-209, 223-225) and leaves in the file the records that had
    reached it; an error of the deferred [Flush] is not read, and the function
    returns nil with the file cut short.  A disk that would fail in a call
    the report does not come to make takes the whole report. *)
Definition GenerateCSVReport (orderID customerID : Z) (w : World) : option error * World :=
  match getOrderDetails (w_db w) (w_choices w) orderID customerID with
  | Err err => (Some err, w)
  | Ok order =>
      let records := csv_records order in
      match w_disk w with
      | CreateFails => (Some (ErrIO "open order_report.csv"), w)
      | DiskOk => (None, set_file "order_report.csv" records w)
      | WriteFails call kept =>
          if decide (call < length records)%nat
          then (Some (ErrIO "write order_report.csv"),
                set_file "order_report.csv" (take (kept `min` call) records) w)
          else (None, set_file "order_report.csv" records w)
      | FlushFails kept =>
          (None, set_file "order_report.csv" (take kept records) w)
      end
  end.

Definition PlaceOrderHandler : HandlerFunc :=
  λ rw r w,
    match Body r with
    | Unreadable err =>
        let w := log_Println "Error reading request body:" (Some err) w in
        (Write (Text "Bad Request") (WriteHeader StatusBadRequest rw), w)
    | NotJSON err =>
        let w := log_Println "Error decoding JSON:" (Some err) w in
        (Write (Text "Invalid JSON format") (WriteHeader StatusBadRequest rw), w)
    | Decoded orderRequest =>
        match validateOrderRequest orderRequest with
        | Some err =>
            let w := log_Println "Validation error:" (Some err) w in
            (Write (Text ("Validation error: " +:+ Error err))
               (WriteHeader StatusBadRequest rw), w)
        | None =>
            match createOrder orderRequest w with
            | (Err err, w) =>
                let w := log_Println "Error creating order:" (Some err) w in
                (Write (Text "Internal Server Error")
                   (WriteHeader StatusInternalServerError rw), w)
            | (Ok orderID, w) =>
                match associateProducts orderID (OrderRequest.Products orderRequest) w with
                | (Some err, w) =>
                    let w := log_Println "Error associating products with order:"
                               (Some err) w in
                    (Write (Text "Internal Server Error")
                       (WriteHeader StatusInternalServerError rw), w)
                | (None, w) =>
                    let '(err, w) :=
                      GenerateCSVReport orderID (OrderRequest.CustomerID orderRequest) w in
                    let w :=
                      match err with
                      | Some err => log_Println "Error generating CSV report:" (Some err) w
                      | None => w
                      end in
                    (Write (Text "Order placed successfully") (WriteHeader StatusCreated rw), w)
                end
            end
        end
    end.

(** ** The routes (lines 43-45) *)

Definition place_order : HandlerFunc :=
  RateLimitMiddleware (AuthMiddleware PlaceOrderHandler "customer").

Definition customer_orders : HandlerFunc :=
  AuthMiddleware CustomerOrdersHandler "customer".

Definition admin_orders : HandlerFunc :=
  RateLimitMiddleware (AuthMiddleware AdminOrdersHandler "admin").

(** ** The reminder task (lines 479-530) *)

Module PendingRow.
(* SELECT id, customer_email FROM orders WHERE status = 'Pending' *)
Record t := mk {
  id : Z;
  customer_email : option string
}.
End PendingRow.

(** [db.Query] of line 498. *)
Definition query_pending_orders (db : DB) (ch : Choices) : Result (list PendingRow.t) :=
  if negb (reachable db) then Err ErrUnreachable else
  match orders_customer_email db with
  | None => Err (ErrUndefinedColumn "customer_email")
  | Some customer_email =>
      Ok (shuffle (row_order ch)
            ((λ o, {| PendingRow.id := OrderRow.id o;
                      PendingRow.customer_email := customer_email (OrderRow.id o) |})
             <$> filter (λ o, OrderRow.status o = "Pending") (orders db)))
  end.

Definition CRLF : string := String (ascii_of_nat 13) (String (ascii_of_nat 10) "").

(** The call of [smtp.SendMail] at line 526, for the recipient [to]. *)
Definition reminder (cfg : SMTPConfig) (to : string) (orderID : Z) : Mail :=
  let subject := "Pending Order Reminder" in
  let body := "Dear customer, your order (ID: " +:+ pretty orderID +:+
              ") is pending. Please complete your checkout process." in
  let message := "To: " +:+ to +:+ CRLF +:+ "Subject: " +:+ subject +:+ CRLF +:+ CRLF +:+ body in
  {| mail_addr := SMTPServer cfg +:+ ":" +:+ pretty (SMTPPort cfg);
     mail_from := SMTPUsername cfg;
     mail_to := [to];
     mail_msg := message |}.

Definition SendEmailReminder (to : string) (orderID : Z) (w : World) : World :=
  let mail := reminder (w_smtpConfig w) to orderID in
  let w := add_mail mail w in
  match w_smtp w mail with
  | Some err =>
      log_Println ("Error sending email to " +:+ to +:+ " for order " +:+ pretty orderID +:+ ":")
        (Some err) w
  | None => w
  end.

(** One turn of the [for rows.Next()] of lines 505-516. *)
Definition remind_row (w : World) (r : PendingRow.t) : World :=
  match scan_string "customer_email" (PendingRow.customer_email r) with
  | Err err => log_Println "Error scanning row:" (Some err) w      (* continue *)
  | Ok customerEmail => SendEmailReminder customerEmail (PendingRow.id r) w
  end.

Definition SendPendingOrderReminders (w : World) : World :=
  match query_pending_orders (w_db w) (w_choices w) with
  | Err err => log_Println "Error querying pending orders:" (Some err) w
  | Ok rows => foldl remind_row w rows
  end.

Definition Day : Duration := 24 * Hour.

(** [time.Date(now.Year(), now.Month(), now.Day()+1, 0, 0, 0, 0, now.Location())]:
    the date of [now] is read in the zone in force at [now]; midnight of the
    day after is first taken as if in UTC, and then moved by the offset the
    zone has there, looked up again when the moved instant leaves the span
    of that offset (package time, [Date]). *)
Definition nextMidnight (loc : Location) (now : Time) : Time :=
  let abs := now + zone_offset (loc now) * Second in
  let unix := (abs `div` Day + 1) * Day in
  let z := loc unix in
  if decide (zone_offset z = 0) then unix
  else
    let utc := unix - zone_offset z * Second in
    if decide (utc < zone_start z ∨ zone_end z ≤ utc)
    then unix - zone_offset (loc utc) * Second
    else utc.

(** [t.Sub(u)]: a [Duration] is an [int64], and the difference is cut to its
    range. *)
Definition Sub (t u : Time) : Duration := Z.max minInt (Z.min maxInt (t - u)).

(** [time.Sleep(d)]: "a negative or zero duration causes Sleep to return
    immediately". *)
Definition Sleep (d : Duration) (w : World) : World :=
  set_now (w_now w + Z.max 0 d + Z.of_N (sleep_lag (w_timing w) (w_now w))) w.

(** One turn of the [for] of [BackgroundTask].  [Allow] reads the clock, the
    sweep runs, and [time.Now()] reads the clock again. *)
Definition BackgroundTask_turn (w : World) : World :=
  let '(ok, lim) := Allow (w_taskLimiter w) "background-task" (w_now w) in
  let w := set_taskLimiter lim w in
  if ok then
    let started := w_now w in
    let w := SendPendingOrderReminders w in
    let w := set_now (started + Z.pos (sweep_time (w_timing w) started)) w in
    let now := w_now w in
    let nextMidnight := nextMidnight (local (w_timing w)) now in
    let timeUntilMidnight := Sub nextMidnight now in
    Sleep timeUntilMidnight w
  else
    Sleep (1 * Hour) w.

(** The first [n] turns of the loop. *)
Definition BackgroundTask (n : nat) (w : World) : World :=
  Nat.iter n BackgroundTask_turn w.

(** What a sweep over the rows [rows] hands to the mail server, and what it
    logs. *)
Definition sweep_mails (cfg : SMTPConfig) (rows : list PendingRow.t) : list Mail :=
  omap (λ r, (λ to, reminder cfg to (PendingRow.id r)) <$> PendingRow.customer_email r) rows.

Definition sweep_log (cfg : SMTPConfig) (smtp : Mail → option error)
    (rows : list PendingRow.t) : list LogLine :=
  omap (λ r,
          match PendingRow.customer_email r with
          | None =>
              Some {| log_text := "Error scanning row:";
                      log_err := Some (ErrScanNull "customer_email") |}
          | Some to =>
              (λ err, {| log_text := "Error sending email to " +:+ to +:+ " for order " +:+
                                     pretty (PendingRow.id r) +:+ ":";
                         log_err := Some err |})
              <$> smtp (reminder cfg to (PendingRow.id r))
          end) rows.

(** ** Comparing results

    Two records of the same order: the same header fields, and the same
    products up to their order. *)
Definition same_order (o1 o2 : OWP) : Prop :=
  OrderWithProducts.ID o1 = OrderWithProducts.ID o2 ∧
  OrderWithProducts.CustomerID o1 = OrderWithProducts.CustomerID o2 ∧
  OrderWithProducts.Date o1 = OrderWithProducts.Date o2 ∧
  OrderWithProducts.Status o1 = OrderWithProducts.Status o2 ∧
  OrderWithProducts.Products o1 ≡ₚ OrderWithProducts.Products o2.

(** Two results with the same orders: the same ids, each once, and records
    of the same id are records of the same order. *)
Definition same_orders (res1 res2 : list OWP) : Prop :=
  OrderWithProducts.ID <$> res1 ≡ₚ OrderWithProducts.ID <$> res2 ∧
  ∀ o1 o2, o1 ∈ res1 → o2 ∈ res2 →
           OrderWithProducts.ID o1 = OrderWithProducts.ID o2 → same_order o1 o2.

(** ** Serving requests one after the other

    [serve h reqs w] hands the requests [reqs] to the handler [h] in turn,
    each with a response writer of its own, and returns the responses. *)
Fixpoint serve (h : HandlerFunc) (reqs : list Request) (w : World)
    : list ResponseWriter * World :=
  match reqs with
  | [] => ([], w)
  | r :: reqs' =>
      let '(rw, w') := h new_ResponseWriter r w in
      let '(rws, w'') := serve h reqs' w' in
      (rw :: rws, w'')
  end.

(** A handler that leaves the clock and the request limiter alone, and one
    that does not answer 429 by itself. *)
Definition keeps_limiter (h : HandlerFunc) : Prop :=
  ∀ rw r w, w_now (h rw r w).2 = w_now w ∧
            w_rateLimiter (h rw r w).2 = w_rateLimiter w.

Definition never_too_many_requests (h : HandlerFunc) : Prop :=
  ∀ r w, rw_status (h new_ResponseWriter r w).1 ≠ Some StatusTooManyRequests.

(** The limiter after the calls [Allow(key)] at the times [calls], one
    after the other. *)
Fixpoint allow_calls (lim : rate.Limiter) (calls : list (string * Time)) : rate.Limiter :=
  match calls with
  | [] => lim
  | (key, now) :: calls' => allow_calls (Allow lim key now).2 calls'
  end.

(** ** Sample data *)

Module Sample.
Definition price_199 : Decimal := {| unscaled := 199; scale := 2 |}.

Definition pen : ProductRow.t := ProductRow.mk 3 "pen" price_199 (Some "a pen") (Some "/pen.png").
Definition ink : ProductRow.t := ProductRow.mk 5 "ink" price_199 (Some "blue ink") (Some "/ink.png").

(** Order 1 (customer 7) has two products, order 2 (customer 8) one, and
    order 3 (customer 7) none; orders 1 and 2 are pending.  The tables are
    as [initDB] creates them. *)
Definition db_initDB : DB :=
  {| reachable := true;
     products := [pen; ink];
     customers := [CustomerRow.mk 7 "ann" "ann@example.org" "x";
                   CustomerRow.mk 8 "bob" "bob@example.org" "y"];
     orders := [OrderRow.mk 1 7 1000 "Pending"; OrderRow.mk 2 8 2000 "Pending";
                OrderRow.mk 3 7 3000 "Paid"];
     order_products := [OrderProductRow.mk 1 3; OrderProductRow.mk 1 5;
                        OrderProductRow.mk 2 5];
     orders_customer_email := orders_customer_email initDB;
     order_products_quantity := order_products_quantity initDB |}.

(** The same rows in tables that have the two further columns. *)
Definition db : DB :=
  {| reachable := true;
     products := products db_initDB;
     customers := customers db_initDB;
     orders := orders db_initDB;
     order_products := order_products db_initDB;
     orders_customer_email :=
       Some (λ id, if decide (id = 2) then Some "bob@example.org" else Some "ann@example.org");
     order_products_quantity := Some (λ order_id product_id, Some (order_id + 1)) |}.

Definition ch : Choices := {| row_order := [1; 0; 2]%nat; map_order := [1; 1]%nat |}.

Definition customer_rows : list CustomerOrdersRow.t :=
  [ CustomerOrdersRow.mk 1 1000 "Pending" 3 "pen" price_199 (Some "a pen") (Some "/pen.png");
    CustomerOrdersRow.mk 4 4000 "Paid" 5 "ink" price_199 (Some "blue ink") (Some "/ink.png");
    CustomerOrdersRow.mk 1 1000 "Pending" 5 "ink" price_199 (Some "blue ink") (Some "/ink.png") ].

Definition all_rows : list AllOrdersRow.t :=
  [ AllOrdersRow.mk 1 7 1000 "Pending" 3 "pen" price_199 (Some "a pen") (Some "/pen.png");
    AllOrdersRow.mk 2 8 2000 "Paid" 5 "ink" price_199 (Some "blue ink") (Some "/ink.png");
    AllOrdersRow.mk 1 7 1000 "Pending" 5 "ink" price_199 (Some "blue ink") (Some "/ink.png") ].
End Sample.

Module SampleWorld.
Definition smtp : SMTPConfig :=
  {| SMTPServer := "smtp.example.org"; SMTPPort := 587;
     SMTPUsername := "shop@example.org"; SMTPPassword := "secret" |}.

(** The process runs in UTC, a sweep takes a quarter of a second, and
    [time.Sleep] is punctual. *)
Definition timing : Timing :=
  {| local := UTC; sweep_time := λ _, 250000000%positive; sleep_lag := λ _, 0%N |}.

(** The mail server refuses mail for bob and accepts the rest. *)
Definition w : World :=
  {| w_db := Sample.db;
     w_now := 63800000000 * Second;
     w_choices := Sample.ch;
     w_rateLimiter := rateLimiter;
     w_taskLimiter := taskLimiter;
     w_smtpConfig := smtp;
     w_smtp := λ m, if decide ("bob@example.org" ∈ mail_to m)
                    then Some (ErrIO "mailbox unavailable") else None;
     w_mails := [];
     w_log := [];
     w_disk := DiskOk;
     w_timing := timing;
     w_files := ∅ |}.

Definition no_body : RequestBody OrderRequest.t := NotJSON (ErrSyntax "unexpected end of JSON input").

(** A request with the admin secret. *)
Definition admin_request : Request :=
  {| Header := {[ "Authorization" := "admin_token" ]};
     Body := no_body;
     RemoteAddr := "10.0.0.1:4000" |}.

(** A customer's request without [X-Customer-ID], and one with a value
    that is no number. *)
Definition request_without_id : Request :=
  {| Header := {[ "Authorization" := "customer_token" ]};
     Body := no_body;
     RemoteAddr := "10.0.0.1:4000" |}.

Definition request_with_bad_id : Request :=
  {| Header := {[ "Authorization" := "customer_token"; "X-Customer-ID" := "seven" ]};
     Body := no_body;
     RemoteAddr := "10.0.0.1:4000" |}.
End SampleWorld.

Module SampleOrders.
(** No customer id (Go's zero value), an empty product list, and a quantity
    of zero; and a request that passes validation. *)
Definition without_customer : OrderRequest.t := OrderRequest.mk 0 [OrderItem.mk 3 2].
Definition without_products : OrderRequest.t := OrderRequest.mk 7 [].
Definition with_zero_quantity : OrderRequest.t :=
  OrderRequest.mk 7 [OrderItem.mk 3 2; OrderItem.mk 5 0].
Definition valid : OrderRequest.t := OrderRequest.mk 7 [OrderItem.mk 3 2; OrderItem.mk 5 1].

Definition request (orderRequest : OrderRequest.t) : Request :=
  {| Header := {[ "Authorization" := "customer_token" ]};
     Body := Decoded orderRequest;
     RemoteAddr := "10.0.0.1:4000" |}.
End SampleOrders.

Module SampleNull.
(** The sample store with a pen that has no description: order 1 contains
    the pen, order 2 does not. *)
Definition pen : ProductRow.t := ProductRow.mk 3 "pen" Sample.price_199 None (Some "/pen.png").

Definition db : DB :=
  {| reachable := true;
     products := [pen; Sample.ink];
     customers := customers Sample.db;
     orders := orders Sample.db;
     order_products := order_products Sample.db;
     orders_customer_email := orders_customer_email Sample.db;
     order_products_quantity := order_products_quantity Sample.db |}.
End SampleNull.

Module SampleRange.
(** The sample store with an ink whose price, 10^400, is beyond the range
    of a [float64]: orders 1 and 2 contain the ink. *)
Definition ink : ProductRow.t :=
  ProductRow.mk 5 "ink" {| unscaled := 1; scale := -400 |} (Some "blue ink") (Some "/ink.png").

Definition db : DB :=
  {| reachable := true;
     products := [Sample.pen; ink];
     customers := customers Sample.db;
     orders := orders Sample.db;
     order_products := order_products Sample.db;
     orders_customer_email := orders_customer_email Sample.db;
     order_products_quantity := order_products_quantity Sample.db |}.
End SampleRange.

Module SampleDisk.
(** The sample world on a disk [d]. *)
Definition with_disk (d : Disk) : World :=
  {| w_db := w_db SampleWorld.w;
     w_now := w_now SampleWorld.w;
     w_choices := w_choices SampleWorld.w;
     w_rateLimiter := w_rateLimiter SampleWorld.w;
     w_taskLimiter := w_taskLimiter SampleWorld.w;
     w_smtpConfig := w_smtpConfig SampleWorld.w;
     w_smtp := w_smtp SampleWorld.w;
     w_mails := [];
     w_log := [];
     w_disk := d;
     w_timing := w_timing SampleWorld.w;
     w_files := ∅ |}.

(** The sample world with a disk that refuses the report file. *)
Definition w : World := with_disk CreateFails.
End SampleDisk.

Module SampleIdle.
(** The sample world with a task limiter whose bucket was emptied just
    now. *)
Definition w : World :=
  {| w_db := w_db SampleWorld.w;
     w_now := w_now SampleWorld.w;
     w_choices := w_choices SampleWorld.w;
     w_rateLimiter := w_rateLimiter SampleWorld.w;
     w_taskLimiter := {| rate.limit := 1; rate.burst := 86400; rate.tokens := 0;
                         rate.last := w_now SampleWorld.w |};
     w_smtpConfig := w_smtpConfig SampleWorld.w;
     w_smtp := w_smtp SampleWorld.w;
     w_mails := [];
     w_log := [];
     w_disk := DiskOk;
     w_timing := w_timing SampleWorld.w;
     w_files := ∅ |}.
End SampleIdle.

Module SampleRequests.
(** A customer's request that names customer 7, and one that names -5. *)
Definition for_customer_7 : Request :=
  {| Header := {[ "Authorization" := "customer_token"; "X-Customer-ID" := "7" ]};
     Body := SampleWorld.no_body;
     RemoteAddr := "10.0.0.1:4000" |}.

Definition for_customer_minus_5 : Request :=
  {| Header := {[ "Authorization" := "customer_token"; "X-Customer-ID" := "-5" ]};
     Body := SampleWorld.no_body;
     RemoteAddr := "10.0.0.1:4000" |}.
End SampleRequests.

(** * Properties *)

(** ** [shuffle] only rearranges *)

Lemma insert_at_perm {A} (i : nat) (x : A) (l : list A) : insert_at i x l ≡ₚ x :: l.
Proof.
  unfold insert_at. rewrite <- Permutation_middle.
  by rewrite take_drop.
Qed.

Lemma shuffle_perm {A} (picks : list nat) (l : list A) : shuffle picks l ≡ₚ l.
Proof.
  revert picks. induction l as [|x l IH]; intros picks; simpl; [done|].
  rewrite insert_at_perm. by rewrite IH.
Qed.

Lemma elem_of_shuffle {A} (picks : list nat) (l : list A) (x : A) :
  x ∈ shuffle picks l ↔ x ∈ l.
Proof. by rewrite shuffle_perm. Qed.

(** ** The grouping fold, once for both reads *)

Lemma append_product_ID o p :
  OrderWithProducts.ID (append_product o p) = OrderWithProducts.ID o.
Proof. done. Qed.

Lemma foldl_append_product o ps :
  foldl append_product o ps =
  {| OrderWithProducts.ID := OrderWithProducts.ID o;
     OrderWithProducts.CustomerID := OrderWithProducts.CustomerID o;
     OrderWithProducts.Date := OrderWithProducts.Date o;
     OrderWithProducts.Status := OrderWithProducts.Status o;
     OrderWithProducts.Products := OrderWithProducts.Products o ++ ps |}.
Proof.
  revert o. induction ps as [|p ps IH]; intros o; simpl.
  - rewrite app_nil_r. by destruct o.
  - rewrite IH. simpl. by rewrite <- app_assoc.
Qed.

Section grouping.
Context {R : Type} (key : R → Z) (fresh : R → OWP) (entry : R → Product.t).

Local Abbreviation step := (step key fresh entry).
Local Abbreviation rows_of := (rows_of key).
Local Abbreviation grouped := (grouped key fresh entry).

Lemma step_lookup_same orders r :
  step orders r !! key r =
  Some (match orders !! key r with
        | Some order => append_product order (entry r)
        | None => fresh r
        end).
Proof.
  unfold step, group_row.
  destruct (orders !! key r); by rewrite lookup_insert_eq.
Qed.

Lemma step_lookup_other orders r id :
  key r ≠ id → step orders r !! id = orders !! id.
Proof.
  intros Hne. unfold step, group_row.
  destruct (orders !! key r); by rewrite lookup_insert_ne.
Qed.

Lemma foldl_step_lookup rows : ∀ orders id,
  foldl step orders rows !! id =
  match orders !! id with
  | Some order => Some (foldl append_product order (entry <$> rows_of id rows))
  | None => grouped rows id
  end.
Proof.
  induction rows as [|r rows IH]; intros orders id; simpl.
  - unfold grouped, rows_of. simpl. by destruct (orders !! id).
  - rewrite IH. unfold grouped, rows_of.
    destruct (decide (key r = id)) as [<-|Hne].
    + rewrite step_lookup_same, filter_cons_True by done.
      by destruct (orders !! key r).
    + rewrite step_lookup_other, filter_cons_False by done.
      done.
Qed.

Lemma foldl_step_empty rows id : foldl step ∅ rows !! id = grouped rows id.
Proof. by rewrite foldl_step_lookup, lookup_empty. Qed.

Lemma grouped_Some rows id o :
  grouped rows id = Some o →
  ∃ r rest, rows_of id rows = r :: rest ∧ key r = id ∧
            o = foldl append_product (fresh r) (entry <$> rest).
Proof.
  unfold grouped. destruct (rows_of id rows) as [|r rest] eqn:E; [done|].
  intros [= <-]. exists r, rest. split_and!; [done| |done].
  assert (r ∈ rows_of id rows) as Hin by (rewrite E; left).
  unfold rows_of in Hin. by apply list_elem_of_filter in Hin as [? _].
Qed.

Lemma grouped_is_Some rows id : is_Some (grouped rows id) ↔ id ∈ key <$> rows.
Proof.
  unfold grouped. split.
  - destruct (rows_of id rows) as [|r rest] eqn:E; [by intros [? [=]]|].
    intros _. assert (r ∈ rows_of id rows) as Hin by (rewrite E; left).
    unfold rows_of in Hin. apply list_elem_of_filter in Hin as [<- Hin].
    by apply list_elem_of_fmap_2.
  - intros (r & -> & Hin)%list_elem_of_fmap.
    assert (r ∈ rows_of (key r) rows) as Hr by by apply list_elem_of_filter.
    destruct (rows_of (key r) rows); [by apply not_elem_of_nil in Hr | eauto].
Qed.

Hypothesis fresh_ID : ∀ r, OrderWithProducts.ID (fresh r) = key r.

Lemma grouped_ID rows id o : grouped rows id = Some o → OrderWithProducts.ID o = id.
Proof.
  intros (r & rest & _ & <- & ->)%grouped_Some.
  rewrite foldl_append_product. simpl. apply fresh_ID.
Qed.

(** What ranging over the final map emits. *)
Lemma elem_of_map_values picks rows o :
  o ∈ map_values picks (foldl step ∅ rows) ↔
  grouped rows (OrderWithProducts.ID o) = Some o.
Proof.
  unfold map_values. rewrite elem_of_shuffle, list_elem_of_fmap. split.
  - intros ([id o'] & -> & Hin). simpl.
    apply elem_of_map_to_list in Hin. rewrite foldl_step_empty in Hin.
    by rewrite (grouped_ID _ _ _ Hin).
  - intros Hg. exists (OrderWithProducts.ID o, o). split; [done|].
    apply elem_of_map_to_list. by rewrite foldl_step_empty.
Qed.

Lemma map_values_ids picks rows :
  OrderWithProducts.ID <$> map_values picks (foldl step ∅ rows)
  ≡ₚ fst <$> map_to_list (foldl step ∅ rows).
Proof.
  unfold map_values. rewrite shuffle_perm, <- list_fmap_compose.
  assert (OrderWithProducts.ID ∘ snd <$> map_to_list (foldl step ∅ rows)
          = fst <$> map_to_list (foldl step ∅ rows)) as ->; [|done].
  apply list_fmap_ext. intros i [id o] Hin. simpl.
  apply list_elem_of_lookup_2, elem_of_map_to_list in Hin.
  rewrite foldl_step_empty in Hin. by apply grouped_ID in Hin.
Qed.

Lemma map_values_NoDup picks rows :
  NoDup (OrderWithProducts.ID <$> map_values picks (foldl step ∅ rows)).
Proof. rewrite map_values_ids. apply NoDup_fst_map_to_list. Qed.

Lemma map_values_id_iff picks rows id :
  id ∈ OrderWithProducts.ID <$> map_values picks (foldl step ∅ rows) ↔ id ∈ key <$> rows.
Proof.
  rewrite map_values_ids, <- grouped_is_Some, <- foldl_step_empty.
  rewrite list_elem_of_fmap. split.
  - intros ([id' o] & -> & Hin). apply elem_of_map_to_list in Hin. eauto.
  - intros [o Ho]. exists (id, o). split; [done|]. by apply elem_of_map_to_list.
Qed.
End grouping.

(** ** The two loops are the fold *)

Module CustomerOrdersFacts.
Import CustomerOrdersRow CustomerOrders.

Lemma customer_loop_foldl rows : ∀ orders,
  Forall scans rows → loop rows orders = Ok (foldl (step order_id fresh entry) orders rows).
Proof.
  induction rows as [|r rows IH]; intros orders Hs; simpl; [done|].
  apply Forall_cons in Hs as [(Hp & [d Hd] & [u Hu]) Hs].
  unfold scan, scan_float64. rewrite Hp, Hd, Hu. simpl. rewrite IH by done.
  unfold step, fresh, entry. by rewrite Hd, Hu.
Qed.

Lemma customer_loop_Err rows : ∀ orders,
  ¬ Forall scans rows → ∃ e, loop rows orders = Err e.
Proof.
  induction rows as [|r rows IH]; intros orders Hs; simpl.
  - by destruct Hs.
  - unfold scan, scan_float64.
    destruct (fits_float64 (price r)) eqn:Hp; simpl; [|eauto].
    destruct (description r) as [d|] eqn:Hd; simpl; [|eauto].
    destruct (image_url r) as [u|] eqn:Hu; simpl; [|eauto].
    apply IH. intros Hrows. apply Hs. constructor; [|done].
    unfold scans. rewrite Hp, Hd, Hu. eauto.
Qed.
End CustomerOrdersFacts.

Module AllOrdersFacts.
Import AllOrdersRow AllOrders.

Lemma all_loop_foldl rows : ∀ orders,
  Forall scans rows → loop rows orders = Ok (foldl (step order_id fresh entry) orders rows).
Proof.
  induction rows as [|r rows IH]; intros orders Hs; simpl; [done|].
  apply Forall_cons in Hs as [(Hp & [d Hd] & [u Hu]) Hs].
  unfold scan, scan_float64. rewrite Hp, Hd, Hu. simpl. rewrite IH by done.
  unfold step, fresh, entry. by rewrite Hd, Hu.
Qed.

Lemma all_loop_Err rows : ∀ orders,
  ¬ Forall scans rows → ∃ e, loop rows orders = Err e.
Proof.
  induction rows as [|r rows IH]; intros orders Hs; simpl.
  - by destruct Hs.
  - unfold scan, scan_float64.
    destruct (fits_float64 (price r)) eqn:Hp; simpl; [|eauto].
    destruct (description r) as [d|] eqn:Hd; simpl; [|eauto].
    destruct (image_url r) as [u|] eqn:Hu; simpl; [|eauto].
    apply IH. intros Hrows. apply Hs. constructor; [|done].
    unfold scans. rewrite Hp, Hd, Hu. eauto.
Qed.
End AllOrdersFacts.

Lemma map_values_groups {R} (key : R → Z) (fresh : R → OWP) (entry : R → Product.t)
    (picks : list nat) (rows : list R) :
  (∀ r, OrderWithProducts.ID (fresh r) = key r) →
  (∀ r, OrderWithProducts.Products (fresh r) = [entry r]) →
  groups key fresh entry rows (map_values picks (foldl (step key fresh entry) ∅ rows)).
Proof.
  intros Hid Hps. split_and!.
  - by apply map_values_NoDup.
  - intros id. by apply map_values_id_iff.
  - intros o Ho. apply elem_of_map_values in Ho; [|done].
    apply grouped_Some in Ho as (r & rest & E & _ & ->). eauto.
  - intros o Ho. apply elem_of_map_values in Ho; [|done].
    apply grouped_Some in Ho as (r & rest & E & _ & Ho).
    rewrite E. subst o. rewrite foldl_append_product. simpl. by rewrite Hps.
Qed.

(** C1.  For every sequence of join rows that one of the two grouped reads
    consumes (every row is scanned), the read returns a result, and it holds
    exactly one record per distinct order id of the rows: the first row of
    an order creates the record with a one-element product sequence, every
    later row of that order appends its entry, and the record's products are
    exactly the entries of the rows with its order id. *)
Theorem grouping_fold_one_record_per_order
    (picks : list nat)
    (crows : list CustomerOrdersRow.t) (arows : list AllOrdersRow.t)
    (Hc : Forall CustomerOrders.scans crows)
    (Ha : Forall AllOrders.scans arows) :
  (∃ res, CustomerOrders.aggregate picks crows = Ok res ∧
          groups CustomerOrdersRow.order_id CustomerOrders.fresh
                 CustomerOrders.entry crows res) ∧
  (∃ res, AllOrders.aggregate picks arows = Ok res ∧
          groups AllOrdersRow.order_id AllOrders.fresh
                 AllOrders.entry arows res).
Proof.
  split.
  - unfold CustomerOrders.aggregate.
    rewrite CustomerOrdersFacts.customer_loop_foldl by done.
    eexists. split; [done|]. by apply map_values_groups.
  - unfold AllOrders.aggregate.
    rewrite AllOrdersFacts.all_loop_foldl by done.
    eexists. split; [done|]. by apply map_values_groups.
Qed.

(** C1, at three rows of two orders. *)
Lemma grouping_fold_one_record_per_order_witness :
  (∃ res, CustomerOrders.aggregate [1; 0]%nat Sample.customer_rows = Ok res ∧
          groups CustomerOrdersRow.order_id CustomerOrders.fresh
                 CustomerOrders.entry Sample.customer_rows res) ∧
  (∃ res, AllOrders.aggregate [1; 0]%nat Sample.all_rows = Ok res ∧
          groups AllOrdersRow.order_id AllOrders.fresh
                 AllOrders.entry Sample.all_rows res).
Proof.
  apply (grouping_fold_one_record_per_order [1; 0]%nat Sample.customer_rows Sample.all_rows).
  - repeat constructor; simpl; eauto.
  - repeat constructor; simpl; eauto.
Defined.

(** ** A result of a grouped read is the fold of rows that all scanned *)

Lemma customer_aggregate_Ok picks rows res :
  CustomerOrders.aggregate picks rows = Ok res →
  Forall CustomerOrders.scans rows ∧
  res = map_values picks
          (foldl (step CustomerOrdersRow.order_id CustomerOrders.fresh CustomerOrders.entry)
                 ∅ rows).
Proof.
  unfold CustomerOrders.aggregate. intros H.
  destruct (Forall_dec CustomerOrders.scans rows) as [Hs|Hs].
  - rewrite CustomerOrdersFacts.customer_loop_foldl in H by done. by injection H as <-.
  - destruct (CustomerOrdersFacts.customer_loop_Err rows ∅ Hs) as [e He]. by rewrite He in H.
Qed.

Lemma all_aggregate_Ok picks rows res :
  AllOrders.aggregate picks rows = Ok res →
  Forall AllOrders.scans rows ∧
  res = map_values picks
          (foldl (step AllOrdersRow.order_id AllOrders.fresh AllOrders.entry) ∅ rows).
Proof.
  unfold AllOrders.aggregate. intros H.
  destruct (Forall_dec AllOrders.scans rows) as [Hs|Hs].
  - rewrite AllOrdersFacts.all_loop_foldl in H by done. by injection H as <-.
  - destruct (AllOrdersFacts.all_loop_Err rows ∅ Hs) as [e He]. by rewrite He in H.
Qed.

(** C10.  Every record the customer-scoped read returns has [CustomerID]
    0, whoever asks: the query does not select the column and the literal
    that creates the record does not set the field. *)
Theorem customer_orders_customer_id_zero
    (db : DB) (ch : Choices) (customerID : Z) (res : list OWP)
    (Hres : getCustomerOrdersWithProducts db ch customerID = Ok res) :
  ∀ o, o ∈ res → OrderWithProducts.CustomerID o = 0.
Proof.
  unfold getCustomerOrdersWithProducts in Hres.
  destruct (query_customer_orders db ch customerID) as [rows|]; [|done].
  apply customer_aggregate_Ok in Hres as [_ ->].
  intros o Ho. apply elem_of_map_values in Ho; [|done].
  apply grouped_Some in Ho as (r & rest & _ & _ & ->).
  by rewrite foldl_append_product.
Qed.

(** C10, at customer 7 of the sample store. *)
Lemma customer_orders_customer_id_zero_witness :
  ∃ res, getCustomerOrdersWithProducts Sample.db Sample.ch 7 = Ok res ∧ res ≠ [] ∧
         ∀ o, o ∈ res → OrderWithProducts.CustomerID o = 0.
Proof.
  eexists. split; [vm_compute; reflexivity|]. split; [done|].
  apply (customer_orders_customer_id_zero Sample.db Sample.ch 7).
  vm_compute. reflexivity.
Defined.

(** ** The join and the three queries *)

Lemma elem_of_orders_join db o op p :
  (o, op, p) ∈ orders_join db ↔
  o ∈ orders db ∧ op ∈ order_products db ∧ p ∈ products db ∧
  OrderRow.id o = OrderProductRow.order_id op ∧
  OrderProductRow.product_id op = ProductRow.id p.
Proof.
  unfold orders_join. rewrite list_elem_of_bind. split.
  - intros (o' & Hin & Ho).
    apply list_elem_of_bind in Hin as (op' & Hin & Hop).
    apply list_elem_of_filter in Hop as [Hjoin1 Hop].
    apply list_elem_of_bind in Hin as (p' & Hin & Hp).
    apply list_elem_of_filter in Hp as [Hjoin2 Hp].
    apply list_elem_of_ret in Hin as [= -> -> ->]. done.
  - intros (Ho & Hop & Hp & Hjoin1 & Hjoin2).
    exists o. split; [|done].
    apply list_elem_of_bind. exists op. split; [|by apply list_elem_of_filter].
    apply list_elem_of_bind. exists p. split; [|by apply list_elem_of_filter].
    by apply list_elem_of_ret.
Qed.

Lemma query_all_orders_rows db ch rows r :
  query_all_orders db ch = Ok rows →
  r ∈ rows ↔ ∃ j, j ∈ orders_join db ∧ r = select_all_orders j.
Proof.
  unfold query_all_orders. destruct (reachable db); simpl; [|done].
  intros [= <-]. rewrite elem_of_shuffle, list_elem_of_fmap.
  split; intros (j & H1 & H2); eauto.
Qed.

Lemma query_customer_orders_rows db ch customerID rows r :
  query_customer_orders db ch customerID = Ok rows →
  r ∈ rows ↔ ∃ j, j ∈ orders_join db ∧ OrderRow.customer_id j.1.1 = customerID ∧
                  r = select_customer_orders j.
Proof.
  unfold query_customer_orders. destruct (reachable db); simpl; [|done].
  intros [= <-]. rewrite elem_of_shuffle, list_elem_of_fmap.
  setoid_rewrite list_elem_of_filter.
  split; [intros (j & H1 & H2 & H3) | intros (j & H1 & H2 & H3)]; eauto.
Qed.

Lemma query_order_details_rows db ch orderID customerID rows r :
  OrderDetails.query db ch orderID customerID = Ok rows →
  r ∈ rows ↔ ∃ op_quantity j,
    order_products_quantity db = Some op_quantity ∧ j ∈ orders_join db ∧
    OrderRow.id j.1.1 = orderID ∧ OrderRow.customer_id j.1.1 = customerID ∧
    r = OrderDetails.select op_quantity j.
Proof.
  unfold OrderDetails.query. destruct (reachable db); simpl; [|done].
  destruct (order_products_quantity db) as [q|]; [|done].
  intros [= <-]. rewrite elem_of_shuffle, list_elem_of_fmap.
  setoid_rewrite list_elem_of_filter. split.
  - intros (j & H1 & (H2 & H3) & H4). exists q, j. done.
  - intros (q' & j & [= <-] & H1 & H2 & H3 & H4). exists j. done.
Qed.

(** What the loop of [getOrderDetails] returns: the products it started
    with and one item per row, under the order fields of the last row. *)
Lemma order_details_loop_Ok rows : ∀ order res,
  OrderDetails.loop rows order = Ok res →
  OrderWithProducts.Products res =
    OrderWithProducts.Products order ++ (OrderDetails.item <$> rows) ∧
  (rows = [] → res = order) ∧
  (∀ r, last rows = Some r →
        OrderWithProducts.ID res = OrderDetailsRow.order_id r ∧
        OrderWithProducts.CustomerID res = OrderDetailsRow.customer_id r ∧
        OrderWithProducts.Date res = OrderDetailsRow.date r ∧
        OrderWithProducts.Status res = OrderDetailsRow.status r).
Proof.
  induction rows as [|r rows IH]; intros order res; simpl.
  - intros [= <-]. by rewrite app_nil_r.
  - unfold scan_float64.
    destruct (fits_float64 (OrderDetailsRow.price r)); simpl; [|done].
    destruct (OrderDetailsRow.quantity r) as [q|] eqn:Hq; simpl; [|done].
    intros H. apply IH in H as (Hps & Hnil & Hlast). split_and!.
    + rewrite Hps. simpl. rewrite <- app_assoc. simpl.
      unfold OrderDetails.item at 2. by rewrite Hq.
    + done.
    + intros r'. destruct rows as [|r2 rows]; simpl.
      * intros [= <-]. by rewrite Hnil.
      * apply Hlast.
Qed.

Lemma order_details_loop_total rows : ∀ order,
  Forall OrderDetails.scans rows →
  ∃ res, OrderDetails.loop rows order = Ok res.
Proof.
  induction rows as [|r rows IH]; intros order Hq; simpl; [eauto|].
  apply Forall_cons in Hq as [[Hp [q Hr]] Hq].
  unfold scan_float64. rewrite Hp, Hr. simpl. by apply IH.
Qed.

Lemma bind_filter_nil {A B} (P : A → Prop) `{∀ x, Decision (P x)}
    (f : A → list B) (l : list A) :
  (∀ x, x ∈ l → ¬ P x → f x = []) → filter P l ≫= f = l ≫= f.
Proof.
  induction l as [|x l IH]; intros Hnil; [done|].
  assert (filter P l ≫= f = l ≫= f) as IH'.
  { apply IH. intros y Hy. apply Hnil. by right. }
  destruct (decide (P x)) as [HP|HP].
  - rewrite filter_cons_True by done. rewrite !bind_cons. by rewrite IH'.
  - rewrite filter_cons_False by done. rewrite bind_cons.
    rewrite IH', (Hnil x) by (done || by left). done.
Qed.

Lemma orders_join_remove_order db id :
  (∀ op, op ∈ order_products db → OrderProductRow.order_id op ≠ id) →
  orders_join (remove_order id db) = orders_join db.
Proof.
  intros Hzero. unfold orders_join. simpl.
  apply bind_filter_nil. intros o _ Hid.
  assert (OrderRow.id o = id) as -> by (by destruct (decide (OrderRow.id o = id))).
  assert (filter (λ op, id = OrderProductRow.order_id op) (order_products db) = []) as ->.
  { apply elem_of_nil_inv. intros op [Hop Hin]%list_elem_of_filter.
    by apply (Hzero op). }
  done.
Qed.

(** [getOrderDetails] answers when the store does, the table has the column
    the statement names, no quantity is NULL and every price is within the
    range of a [float64]. *)
Lemma getOrderDetails_answers db ch orderID customerID op_quantity :
  reachable db = true →
  order_products_quantity db = Some op_quantity →
  (∀ order_id product_id, is_Some (op_quantity order_id product_id)) →
  (∀ p, p ∈ products db → fits_float64 (ProductRow.price p) = true) →
  ∃ res, getOrderDetails db ch orderID customerID = Ok res.
Proof.
  intros Hup Hcol Hq Hfit. unfold getOrderDetails, OrderDetails.query.
  rewrite Hup, Hcol. simpl. apply order_details_loop_total.
  apply Forall_forall. intros r Hr.
  apply elem_of_shuffle, list_elem_of_fmap in Hr as ([[o op] p] & -> & Hj).
  apply list_elem_of_filter in Hj as [_ Hj].
  apply list_elem_of_bind in Hj as (o' & Hj & _).
  apply list_elem_of_bind in Hj as (op' & Hj & _).
  apply list_elem_of_bind in Hj as (p' & Hj & Hp).
  apply list_elem_of_ret in Hj as [= -> -> ->].
  apply list_elem_of_filter in Hp as [_ Hp].
  split; [by apply Hfit | apply Hq].
Qed.

(** The products of a record of a grouped read are the rows of the join
    with the record's order id, carrying the attributes of their product. *)
Lemma all_orders_products db ch res o :
  getAllOrdersWithProducts db ch = Ok res → o ∈ res →
  OrderWithProducts.Products o ≡ₚ
    AllOrders.entry <$> rows_of AllOrdersRow.order_id (OrderWithProducts.ID o)
                          (select_all_orders <$> orders_join db).
Proof.
  unfold getAllOrdersWithProducts, query_all_orders.
  destruct (reachable db); simpl; [|done].
  intros Hres Ho. apply all_aggregate_Ok in Hres as [_ ->].
  destruct (map_values_groups AllOrdersRow.order_id AllOrders.fresh AllOrders.entry
              (map_order ch)
              (shuffle (row_order ch) (select_all_orders <$> orders_join db)))
    as (_ & _ & _ & Hps); [done..|].
  rewrite (Hps o Ho). unfold rows_of. by rewrite shuffle_perm.
Qed.

Lemma customer_orders_products db ch customerID res o :
  getCustomerOrdersWithProducts db ch customerID = Ok res → o ∈ res →
  OrderWithProducts.Products o ≡ₚ
    CustomerOrders.entry <$> rows_of CustomerOrdersRow.order_id (OrderWithProducts.ID o)
      (select_customer_orders
       <$> filter (λ j, OrderRow.customer_id j.1.1 = customerID) (orders_join db)).
Proof.
  unfold getCustomerOrdersWithProducts, query_customer_orders.
  destruct (reachable db); simpl; [|done].
  intros Hres Ho. apply customer_aggregate_Ok in Hres as [_ ->].
  destruct (map_values_groups CustomerOrdersRow.order_id CustomerOrders.fresh
              CustomerOrders.entry (map_order ch)
              (shuffle (row_order ch)
                 (select_customer_orders
                  <$> filter (λ j, OrderRow.customer_id j.1.1 = customerID)
                             (orders_join db))))
    as (_ & _ & _ & Hps); [done..|].
  rewrite (Hps o Ho). unfold rows_of. by rewrite shuffle_perm.
Qed.

(** C5.  An order without association rows (no row of [order_products]
    bears its id) is in the result of no aggregation read: the two grouped
    reads return no record with its id, and [getOrderDetails], asked for it,
    returns the record it starts from, which holds the two arguments and
    nothing read from the store: no date, no status, no product.  No read
    can tell that the order is there: each returns what it returns on the
    store without it. *)
Theorem order_without_products_never_appears
    (db : DB) (ch : Choices) (id : Z)
    (Hzero : ∀ op, op ∈ order_products db → OrderProductRow.order_id op ≠ id) :
  (∀ res, getAllOrdersWithProducts db ch = Ok res →
          id ∉ OrderWithProducts.ID <$> res) ∧
  (∀ customerID res, getCustomerOrdersWithProducts db ch customerID = Ok res →
          id ∉ OrderWithProducts.ID <$> res) ∧
  (∀ customerID res, getOrderDetails db ch id customerID = Ok res →
          res = OrderDetails.initial id customerID) ∧
  (getAllOrdersWithProducts (remove_order id db) ch = getAllOrdersWithProducts db ch ∧
   ∀ orderID customerID,
     getCustomerOrdersWithProducts (remove_order id db) ch customerID
       = getCustomerOrdersWithProducts db ch customerID ∧
     getOrderDetails (remove_order id db) ch orderID customerID
       = getOrderDetails db ch orderID customerID).
Proof.
  assert (∀ j, j ∈ orders_join db → OrderRow.id j.1.1 ≠ id) as Hjoin.
  { intros [[o op] p] (_ & Hop & _ & Hid & _)%elem_of_orders_join. simpl.
    rewrite Hid. by apply Hzero. }
  split_and!.
  - intros res Hres. unfold getAllOrdersWithProducts in Hres.
    destruct (query_all_orders db ch) as [rows|] eqn:Hq; [|done].
    apply all_aggregate_Ok in Hres as [_ ->].
    rewrite map_values_id_iff by done.
    intros (r & -> & Hr)%list_elem_of_fmap.
    apply (query_all_orders_rows _ _ _ _ Hq) in Hr as ([[o op] p] & Hj & ->).
    by apply Hjoin in Hj.
  - intros customerID res Hres. unfold getCustomerOrdersWithProducts in Hres.
    destruct (query_customer_orders db ch customerID) as [rows|] eqn:Hq; [|done].
    apply customer_aggregate_Ok in Hres as [_ ->].
    rewrite map_values_id_iff by done.
    intros (r & -> & Hr)%list_elem_of_fmap.
    apply (query_customer_orders_rows _ _ _ _ _ Hq) in Hr as ([[o op] p] & Hj & _ & ->).
    by apply Hjoin in Hj.
  - intros customerID res Hres. unfold getOrderDetails in Hres.
    destruct (OrderDetails.query db ch id customerID) as [rows|] eqn:Hq; [|done].
    assert (rows = []) as ->.
    { apply elem_of_nil_inv. intros r Hr.
      apply (query_order_details_rows _ _ _ _ _ _ Hq) in Hr
        as (q & j & _ & Hj & Hid & _).
      by apply Hjoin in Hj. }
    by injection Hres as <-.
  - unfold getAllOrdersWithProducts, query_all_orders.
    rewrite (orders_join_remove_order db id Hzero). reflexivity.
  - intros orderID customerID. split.
    + unfold getCustomerOrdersWithProducts, query_customer_orders.
      rewrite (orders_join_remove_order db id Hzero). reflexivity.
    + unfold getOrderDetails, OrderDetails.query.
      rewrite (orders_join_remove_order db id Hzero). reflexivity.
Qed.

(** C5, at order 3 of the sample store, which has no association row. *)
Lemma order_without_products_never_appears_witness :
  (∃ res, getAllOrdersWithProducts Sample.db Sample.ch = Ok res ∧
          3 ∉ OrderWithProducts.ID <$> res) ∧
  (∃ res, getCustomerOrdersWithProducts Sample.db Sample.ch 7 = Ok res ∧
          3 ∉ OrderWithProducts.ID <$> res) ∧
  getOrderDetails Sample.db Sample.ch 3 7 = Ok (OrderDetails.initial 3 7).
Proof.
  assert (∀ op, op ∈ order_products Sample.db → OrderProductRow.order_id op ≠ 3) as Hzero.
  { intros op Hop. simpl in Hop.
    rewrite !elem_of_cons, elem_of_nil in Hop.
    destruct Hop as [->|[->|[->|[]]]]; done. }
  destruct (order_without_products_never_appears Sample.db Sample.ch 3 Hzero)
    as (Hall & Hcust & Hdet & _).
  split_and!.
  - eexists. split; [vm_compute; reflexivity|]. apply Hall. vm_compute. reflexivity.
  - eexists. split; [vm_compute; reflexivity|]. apply (Hcust 7). vm_compute. reflexivity.
  - vm_compute. reflexivity.
Defined.

Lemma order_details_no_rows db ch orderID customerID :
  (∀ j, j ∈ orders_join db →
        ¬ (OrderRow.id j.1.1 = orderID ∧ OrderRow.customer_id j.1.1 = customerID)) →
  getOrderDetails db ch orderID customerID =
    if reachable db then
      match order_products_quantity db with
      | Some _ => Ok (OrderDetails.initial orderID customerID)
      | None => Err (ErrUndefinedColumn "op.quantity")
      end
    else Err ErrUnreachable.
Proof.
  intros Hnone. unfold getOrderDetails.
  destruct (OrderDetails.query db ch orderID customerID) as [rows|e] eqn:Hq.
  - assert (rows = []) as ->.
    { apply elem_of_nil_inv. intros r Hr.
      apply (query_order_details_rows _ _ _ _ _ _ Hq) in Hr
        as (q & j & _ & Hj & Hid & Hc & _).
      by apply (Hnone j). }
    unfold OrderDetails.query in Hq.
    destruct (reachable db); [|done].
    by destruct (order_products_quantity db).
  - unfold OrderDetails.query in Hq.
    destruct (reachable db); simpl in *; [|congruence].
    destruct (order_products_quantity db); [done|congruence].
Qed.

(** C6.  [getOrderDetails orderID customerID] on a store where the order
    belongs to another customer returns an empty or absent result: an error
    when the store fails, and otherwise the record it starts from, with the
    two arguments and no line item.  On any store, a line item of its result
    is the product of an association row of an order with this id owned by
    this customer, and the header fields are the two arguments. *)
Theorem order_details_ownership_isolation
    (db : DB) (ch : Choices) (orderID customerID : Z) :
  ((∀ o, o ∈ orders db → OrderRow.id o = orderID → OrderRow.customer_id o ≠ customerID) →
     (∀ res, getOrderDetails db ch orderID customerID = Ok res →
             res = OrderDetails.initial orderID customerID) ∧
     (reachable db = true → is_Some (order_products_quantity db) →
      getOrderDetails db ch orderID customerID
        = Ok (OrderDetails.initial orderID customerID))) ∧
  (∀ res, getOrderDetails db ch orderID customerID = Ok res →
     OrderWithProducts.ID res = orderID ∧
     OrderWithProducts.CustomerID res = customerID ∧
     ∀ item, item ∈ OrderWithProducts.Products res →
       ∃ o op p, (o, op, p) ∈ orders_join db ∧
                 OrderRow.id o = orderID ∧ OrderRow.customer_id o = customerID ∧
                 Product.ID item = ProductRow.id p ∧
                 Product.Name item = ProductRow.name p ∧
                 Product.Price item = ProductRow.price p).
Proof.
  split.
  - intros Hother.
    assert (getOrderDetails db ch orderID customerID =
            if reachable db then
              match order_products_quantity db with
              | Some _ => Ok (OrderDetails.initial orderID customerID)
              | None => Err (ErrUndefinedColumn "op.quantity")
              end
            else Err ErrUnreachable) as ->.
    { apply order_details_no_rows.
      intros [[o op] p] (Ho & _)%elem_of_orders_join [Hid Hc]. simpl in *.
      by apply (Hother o). }
    split.
    + intros res. destruct (reachable db); [|done].
      destruct (order_products_quantity db); [|done]. by intros [= <-].
    + intros -> [q ->]. done.
  - intros res Hres. unfold getOrderDetails in Hres.
    destruct (OrderDetails.query db ch orderID customerID) as [rows|] eqn:Hq; [|done].
    apply order_details_loop_Ok in Hres as (Hps & Hnil & Hlast).
    assert (∀ r, r ∈ rows →
              OrderDetailsRow.order_id r = orderID ∧
              OrderDetailsRow.customer_id r = customerID ∧
              ∃ o op p, (o, op, p) ∈ orders_join db ∧
                 OrderRow.id o = orderID ∧ OrderRow.customer_id o = customerID ∧
                 OrderDetailsRow.product_id r = ProductRow.id p ∧
                 OrderDetailsRow.product_name r = ProductRow.name p ∧
                 OrderDetailsRow.price r = ProductRow.price p) as Hrows.
    { intros r Hr.
      apply (query_order_details_rows _ _ _ _ _ _ Hq) in Hr
        as (q & [[o op] p] & _ & Hj & Hid & Hc & ->).
      simpl in *. split_and!; [done..|]. exists o, op, p. done. }
    split_and!.
    + destruct (last rows) as [r|] eqn:Hl.
      * destruct (Hlast r eq_refl) as (-> & _).
        apply Hrows. by apply last_Some_elem_of.
      * apply last_None in Hl. by rewrite (Hnil Hl).
    + destruct (last rows) as [r|] eqn:Hl.
      * destruct (Hlast r eq_refl) as (_ & -> & _).
        apply Hrows. by apply last_Some_elem_of.
      * apply last_None in Hl. by rewrite (Hnil Hl).
    + intros item. rewrite Hps. simpl.
      intros (r & -> & Hr)%list_elem_of_fmap.
      destruct (Hrows r Hr) as (_ & _ & o & op & p & H). exists o, op, p. done.
Qed.

(** C6, at the sample store: order 2 belongs to customer 8 and is asked for
    by customer 7; order 1 is asked for by its owner. *)
Lemma order_details_ownership_isolation_witness :
  getOrderDetails Sample.db Sample.ch 2 7 = Ok (OrderDetails.initial 2 7) ∧
  ∃ res, getOrderDetails Sample.db Sample.ch 1 7 = Ok res ∧
         length (OrderWithProducts.Products res) = 2%nat ∧
         ∀ item, item ∈ OrderWithProducts.Products res →
           ∃ o op p, (o, op, p) ∈ orders_join Sample.db ∧
                     OrderRow.id o = 1 ∧ OrderRow.customer_id o = 7 ∧
                     Product.ID item = ProductRow.id p ∧
                     Product.Name item = ProductRow.name p ∧
                     Product.Price item = ProductRow.price p.
Proof.
  split.
  - destruct (order_details_ownership_isolation Sample.db Sample.ch 2 7) as [Hother _].
    apply Hother; [|done|by eexists].
    intros o Ho. simpl in Ho.
    rewrite !elem_of_cons, elem_of_nil in Ho.
    destruct Ho as [->|[->|[->|[]]]]; done.
  - destruct (order_details_ownership_isolation Sample.db Sample.ch 1 7) as [_ Hitems].
    eexists. split; [vm_compute; reflexivity|]. split; [done|].
    apply Hitems. vm_compute. reflexivity.
Defined.

(** C7, evaluated.  The [order_products] table [initDB] creates has the two
    key columns and no [quantity]; on tables so created, [getOrderDetails]
    fails for the owner of an order with two association rows, because its
    statement names [op.quantity]. *)
Theorem initDB_order_products_has_no_quantity :
  columns_of "order_products" createTableSQL = ["order_id"; "product_id"] ∧
  order_products_quantity initDB = None ∧
  getOrderDetails Sample.db_initDB Sample.ch 1 7 = Err (ErrUndefinedColumn "op.quantity").
Proof. split_and!; vm_compute; reflexivity. Qed.

(** ** The rate limiter *)

Lemma allow_each_from keys : ∀ lim now c,
  rate.advance lim now = c * Second → c ≤ rate.burst lim →
  fst (allow_each lim keys now) = (λ i, bool_decide (i < c)) <$> seqZ 0 (Z.of_nat (length keys)).
Proof.
  induction keys as [|k keys IH]; intros lim now c Hadv Hc; [done|].
  cbn [allow_each length]. unfold Allow, rate.Allow. rewrite Hadv.
  rewrite Nat2Z.inj_succ, seqZ_cons by lia. rewrite fmap_cons.
  replace (Z.succ (Z.of_nat (length keys))) with (Z.of_nat (length keys) + 1) by lia.
  replace (Z.pred (Z.of_nat (length keys) + 1)) with (Z.of_nat (length keys)) by lia.
  unfold Second in *.
  destruct (1000000000 <=? c * 1000000000) eqn:Hle.
  - apply Z.leb_le in Hle.
    set (lim' := {| rate.limit := rate.limit lim; rate.burst := rate.burst lim;
                    rate.tokens := c * 1000000000 - 1000000000;
                    rate.last := now |}).
    specialize (IH lim' now (c - 1)).
    destruct (allow_each lim' keys now) as [oks lim''] eqn:E. simpl in *.
    rewrite bool_decide_true by lia. f_equal.
    rewrite IH.
    + replace (Z.succ 0) with (1 + 0) by lia.
      rewrite <- (fmap_add_seqZ 1 0), <- list_fmap_compose.
      apply list_fmap_ext. intros _ i _. simpl.
      apply bool_decide_ext. lia.
    + unfold rate.advance, lim', Second. simpl.
      replace (Z.max 0 (now - now)) with 0 by lia. lia.
    + lia.
  - apply Z.leb_gt in Hle.
    specialize (IH lim now c Hadv Hc).
    destruct (allow_each lim keys now) as [oks lim''] eqn:E. simpl in *.
    rewrite bool_decide_false by lia. f_equal.
    rewrite IH.
    replace (Z.succ 0) with (1 + 0) by lia.
    rewrite <- (fmap_add_seqZ 1 0), <- list_fmap_compose.
    apply list_fmap_ext. intros n i Hi. simpl.
    apply lookup_seqZ in Hi as [-> _].
    rewrite !bool_decide_false by lia. done.
Qed.

(** Of calls in immediate succession to a new limiter, the first
    [Seconds window] are allowed, whatever [limit] is and whatever keys are
    passed. *)
Lemma NewRateLimiter_allows_window_seconds limit window keys now :
  0 ≤ limit →
  fst (allow_each (NewRateLimiter limit window) keys now) =
  (λ i, bool_decide (i < Seconds window)) <$> seqZ 0 (Z.of_nat (length keys)).
Proof.
  intros Hl. apply allow_each_from; [|done].
  unfold rate.advance, NewRateLimiter, rate.NewLimiter. simpl.
  assert (0 ≤ Z.max 0 (now - 0) * limit) by nia. lia.
Qed.

(** A bucket that holds a token gives it. *)
Lemma allow_with_tokens lim now k :
  0 ≤ rate.limit lim → 0 ≤ k → k < rate.burst lim →
  (rate.burst lim - k) * Second ≤ rate.tokens lim →
  (rate.Allow lim now).1 = true ∧
  rate.limit (rate.Allow lim now).2 = rate.limit lim ∧
  rate.burst (rate.Allow lim now).2 = rate.burst lim ∧
  (rate.burst lim - (k + 1)) * Second ≤ rate.tokens (rate.Allow lim now).2.
Proof.
  intros Hl Hk Hkb Ht. unfold rate.Allow.
  assert ((rate.burst lim - k) * Second ≤ rate.advance lim now) as Hadv.
  { unfold rate.advance.
    assert (0 ≤ Z.max 0 (now - rate.last lim) * rate.limit lim) by nia.
    unfold Second in *. lia. }
  assert (Second ≤ rate.advance lim now) as Hs by (unfold Second in *; lia).
  apply Z.leb_le in Hs. rewrite Hs. simpl. split_and!; [done..|].
  unfold Second in *. lia.
Qed.

(** C2, evaluated.  With limit 1 and window 24 hours, the second of two
    calls in immediate succession is allowed; with limit 100 and window one
    minute, of one hundred such calls the first sixty are allowed and the
    rest are not; and after sixty calls under one key, the first call under a
    key never seen before, at the same instant, is refused. *)
Theorem rate_limiter_bucket_is_window_seconds (now : Time) :
  fst (allow_each taskLimiter ["background-task"; "background-task"] now)
    = [true; true] ∧
  fst (allow_each rateLimiter (replicate 100 "10.0.0.1:4000") now)
    = replicate 60 true ++ replicate 40 false ∧
  fst (allow_each rateLimiter (replicate 60 "10.0.0.1:4000" ++ ["10.0.0.2:4000"]) now)
    = replicate 60 true ++ [false].
Proof.
  unfold taskLimiter, rateLimiter.
  rewrite !NewRateLimiter_allows_window_seconds by done.
  split_and!; vm_compute; reflexivity.
Qed.

(** ** Access control *)

(** C4.  The wrapper compares the [Authorization] header with the secret of
    the route's role by string equality.  On a mismatch it answers 401
    "Unauthorized" and leaves the world as it was, whatever the wrapped
    handler is: so for an absent header and for the other role's secret.
    For a role that is neither "customer" nor "admin" it answers 500.  On a
    match it is the wrapped handler. *)
Theorem auth_middleware_access_control
    (next : HandlerFunc) (role : string)
    (rw : ResponseWriter) (r : Request) (w : World) :
  let token := Header_Get r "Authorization" in
  (role = "customer" → token ≠ customerToken →
     AuthMiddleware next role rw r w = (unauthorized rw, w)) ∧
  (role = "admin" → token ≠ adminToken →
     AuthMiddleware next role rw r w = (unauthorized rw, w)) ∧
  (role = "customer" ∨ role = "admin" → Header r !! "Authorization" = None →
     AuthMiddleware next role rw r w = (unauthorized rw, w)) ∧
  (role = "customer" → token = adminToken →
     AuthMiddleware next role rw r w = (unauthorized rw, w)) ∧
  (role = "admin" → token = customerToken →
     AuthMiddleware next role rw r w = (unauthorized rw, w)) ∧
  (role ≠ "customer" → role ≠ "admin" →
     AuthMiddleware next role rw r w = (internal_server_error rw, w)) ∧
  (role = "customer" → token = customerToken →
     AuthMiddleware next role rw r w = next rw r w) ∧
  (role = "admin" → token = adminToken →
     AuthMiddleware next role rw r w = next rw r w).
Proof.
  intros token. unfold AuthMiddleware. fold token. split_and!.
  - intros -> Hne. simpl. by rewrite decide_True.
  - intros -> Hne. simpl. by rewrite decide_True.
  - intros Hrole Hnone.
    assert (token = "") as Htok by (unfold token, Header_Get; by rewrite Hnone).
    rewrite Htok. by destruct Hrole as [-> | ->].
  - intros -> Htok. by rewrite Htok.
  - intros -> Htok. by rewrite Htok.
  - intros H1 H2. by rewrite !decide_False.
  - intros -> Htok. simpl. by rewrite decide_False by (by intros []).
  - intros -> Htok. simpl. by rewrite decide_False by (by intros []).
Qed.

(** C4, at a request bearing the admin secret on a customer route. *)
Lemma auth_middleware_access_control_witness :
  AuthMiddleware CustomerOrdersHandler "customer" new_ResponseWriter
    SampleWorld.admin_request SampleWorld.w
  = (unauthorized new_ResponseWriter, SampleWorld.w).
Proof.
  destruct (auth_middleware_access_control CustomerOrdersHandler "customer"
              new_ResponseWriter SampleWorld.admin_request SampleWorld.w)
    as (_ & _ & _ & Hadmin & _).
  apply Hadmin; reflexivity.
Defined.

(** ** The customer view *)

Example Atoi_examples :
  Atoi "7" = Ok 7 ∧ Atoi "-12" = Ok (-12) ∧ Atoi "+3" = Ok 3 ∧ Atoi "007" = Ok 7 ∧
  Atoi "" = Err (ErrSyntax "invalid syntax") ∧
  Atoi "seven" = Err (ErrSyntax "invalid syntax") ∧
  Atoi "1.5" = Err (ErrSyntax "invalid syntax") ∧
  Atoi " 7" = Err (ErrSyntax "invalid syntax") ∧
  Atoi "9223372036854775807" = Ok maxInt ∧
  Atoi "9223372036854775808" = Err (ErrSyntax "value out of range").
Proof. repeat split; vm_compute; reflexivity. Qed.

Lemma digits_not_all_digits s : ∀ acc, all_digits s = false → digits s acc = None.
Proof.
  induction s as [|c s IH]; intros acc; simpl; [done|].
  unfold digit, is_digit.
  destruct ((48 <=? Z.of_N (N_of_ascii c)) && (Z.of_N (N_of_ascii c) <=? 57)); simpl.
  - apply IH.
  - done.
Qed.

Lemma Atoi_not_decimal_integer s : decimal_integer s = false → ∃ e, Atoi s = Err e.
Proof.
  unfold decimal_integer, Atoi.
  destruct (split_sign s) as [neg body].
  destruct body as [|c body]; [eauto|].
  intros Hd.
  assert (all_digits (String c body) = false) as Hd'.
  { destruct (all_digits (String c body)); [|done]. by simpl in Hd. }
  rewrite (digits_not_all_digits (String c body) 0 Hd'). eauto.
Qed.

(** C9.  When the [X-Customer-ID] header is missing or is not a decimal
    integer, the handler takes the customer id to be 0 and answers with what
    the aggregation for customer 0 gives: status 200 and its JSON when the
    read succeeds (500 when the store fails), never a client error. *)
Theorem customer_orders_handler_defaults_to_customer_zero
    (rw : ResponseWriter) (r : Request) (w : World)
    (Hbad : Header r !! "X-Customer-ID" = None ∨
            ∃ v, Header r !! "X-Customer-ID" = Some v ∧ decimal_integer v = false) :
  getCustomerID r = 0 ∧
  (∀ orders, getCustomerOrdersWithProducts (w_db w) (w_choices w) 0 = Ok orders →
     CustomerOrdersHandler rw r w = (ok_json rw orders, w)) ∧
  (∀ err, getCustomerOrdersWithProducts (w_db w) (w_choices w) 0 = Err err →
     CustomerOrdersHandler rw r w =
       (internal_server_error rw,
        log_Println "Error retrieving customer orders:" (Some err) w)).
Proof.
  assert (getCustomerID r = 0) as Hid.
  { unfold getCustomerID.
    assert (decimal_integer (Header_Get r "X-Customer-ID") = false) as Hd.
    { unfold Header_Get. destruct Hbad as [-> | (v & -> & Hv)]; done. }
    by destruct (Atoi_not_decimal_integer _ Hd) as [e ->]. }
  unfold CustomerOrdersHandler. rewrite Hid. split_and!; [done|..].
  - intros orders ->. by destruct orders.
  - by intros err ->.
Qed.

(** C9, at a request without the header and at one whose header is a word;
    the sample store has no order of customer 0. *)
Lemma customer_orders_handler_defaults_to_customer_zero_witness :
  CustomerOrdersHandler new_ResponseWriter SampleWorld.request_without_id SampleWorld.w
    = (ok_json new_ResponseWriter [], SampleWorld.w) ∧
  CustomerOrdersHandler new_ResponseWriter SampleWorld.request_with_bad_id SampleWorld.w
    = (ok_json new_ResponseWriter [], SampleWorld.w).
Proof.
  split.
  - apply (customer_orders_handler_defaults_to_customer_zero new_ResponseWriter
             SampleWorld.request_without_id SampleWorld.w).
    + left. reflexivity.
    + vm_compute. reflexivity.
  - apply (customer_orders_handler_defaults_to_customer_zero new_ResponseWriter
             SampleWorld.request_with_bad_id SampleWorld.w).
    + right. exists "seven". split; reflexivity.
    + vm_compute. reflexivity.
Defined.

(** ** Order ingestion *)

Lemma validateOrderRequest_rejects orderRequest :
  OrderRequest.CustomerID orderRequest ≤ 0 ∨
  OrderRequest.Products orderRequest = [] ∨
  (∃ item, item ∈ OrderRequest.Products orderRequest ∧ OrderItem.Quantity item ≤ 0) →
  ∃ msg, validateOrderRequest orderRequest = Some (ErrValidation msg).
Proof.
  intros Hbad. unfold validateOrderRequest.
  destruct (OrderRequest.CustomerID orderRequest <=? 0) eqn:Hc; [eauto|].
  case_bool_decide as Hp; [eauto|].
  destruct (existsb _ _) eqn:Hq; [eauto|].
  exfalso. destruct Hbad as [Hbad | [Hbad | (item & Hin & Hle)]].
  - apply Z.leb_gt in Hc. lia.
  - done.
  - apply not_true_iff_false in Hq. apply Hq, existsb_exists.
    exists item. split; [by apply list_elem_of_In | by apply Z.leb_le].
Qed.

(** C3.  An order request whose customer id is missing (zero) or not
    positive, or whose product list is empty, or that has a quantity that is
    not positive, is answered with status 400 and the text of a validation
    error, and nothing is persisted: the store (so the [orders] and the
    [order_products] table), the files and the mails are as before, and only
    the log has the error as a new line. *)
Theorem place_order_rejects_invalid_request
    (rw : ResponseWriter) (r : Request) (w : World) (orderRequest : OrderRequest.t)
    (Hbody : Body r = Decoded orderRequest)
    (Hbad : OrderRequest.CustomerID orderRequest ≤ 0 ∨
            OrderRequest.Products orderRequest = [] ∨
            (∃ item, item ∈ OrderRequest.Products orderRequest ∧
                     OrderItem.Quantity item ≤ 0)) :
  ∃ msg,
    PlaceOrderHandler rw r w =
      (bad_request ("Validation error: " +:+ msg) rw,
       log_Println "Validation error:" (Some (ErrValidation msg)) w) ∧
    w_db (PlaceOrderHandler rw r w).2 = w_db w ∧
    orders (w_db (PlaceOrderHandler rw r w).2) = orders (w_db w) ∧
    order_products (w_db (PlaceOrderHandler rw r w).2) = order_products (w_db w) ∧
    w_files (PlaceOrderHandler rw r w).2 = w_files w.
Proof.
  destruct (validateOrderRequest_rejects orderRequest Hbad) as [msg Hv].
  exists msg. unfold PlaceOrderHandler. rewrite Hbody, Hv. done.
Qed.

(** C3, at the three kinds of invalid request; a valid request, for
    contrast, is answered 201 and adds an order to the store. *)
Lemma place_order_rejects_invalid_request_witness :
  (rw_status (PlaceOrderHandler new_ResponseWriter
                (SampleOrders.request SampleOrders.without_customer) SampleWorld.w).1
     = Some 400 ∧
   rw_status (PlaceOrderHandler new_ResponseWriter
                (SampleOrders.request SampleOrders.without_products) SampleWorld.w).1
     = Some 400 ∧
   rw_status (PlaceOrderHandler new_ResponseWriter
                (SampleOrders.request SampleOrders.with_zero_quantity) SampleWorld.w).1
     = Some 400 ∧
   w_db (PlaceOrderHandler new_ResponseWriter
           (SampleOrders.request SampleOrders.with_zero_quantity) SampleWorld.w).2
     = w_db SampleWorld.w) ∧
  (rw_status (PlaceOrderHandler new_ResponseWriter
                (SampleOrders.request SampleOrders.valid) SampleWorld.w).1
     = Some 201 ∧
   length (orders (w_db (PlaceOrderHandler new_ResponseWriter
                           (SampleOrders.request SampleOrders.valid) SampleWorld.w).2))
     = 4%nat).
Proof.
  split; [|split; vm_compute; reflexivity].
  destruct (place_order_rejects_invalid_request new_ResponseWriter
              (SampleOrders.request SampleOrders.without_customer) SampleWorld.w
              SampleOrders.without_customer eq_refl) as (m1 & H1 & _).
  { left. simpl. lia. }
  destruct (place_order_rejects_invalid_request new_ResponseWriter
              (SampleOrders.request SampleOrders.without_products) SampleWorld.w
              SampleOrders.without_products eq_refl) as (m2 & H2 & _).
  { right. left. reflexivity. }
  destruct (place_order_rejects_invalid_request new_ResponseWriter
              (SampleOrders.request SampleOrders.with_zero_quantity) SampleWorld.w
              SampleOrders.with_zero_quantity eq_refl) as (m3 & H3 & Hdb & _).
  { right. right. exists (OrderItem.mk 5 0). split; [|simpl; lia].
    simpl. apply elem_of_cons. right. apply elem_of_cons. by left. }
  rewrite H1, H2. split_and!; [reflexivity..| |exact Hdb]. by rewrite H3.
Defined.

(** ** The reminder task *)

Lemma remind_row_effect w r :
  w_mails (remind_row w r) = w_mails w ++ sweep_mails (w_smtpConfig w) [r] ∧
  w_log (remind_row w r) = w_log w ++ sweep_log (w_smtpConfig w) (w_smtp w) [r] ∧
  w_smtpConfig (remind_row w r) = w_smtpConfig w ∧
  w_smtp (remind_row w r) = w_smtp w.
Proof.
  unfold remind_row, sweep_mails, sweep_log, SendEmailReminder. simpl.
  destruct (PendingRow.customer_email r) as [to|]; simpl.
  - destruct (w_smtp w (reminder (w_smtpConfig w) to (PendingRow.id r))); simpl;
      by rewrite ?app_nil_r.
  - by rewrite app_nil_r.
Qed.

Lemma sweep_effect rows : ∀ w,
  w_mails (foldl remind_row w rows) = w_mails w ++ sweep_mails (w_smtpConfig w) rows ∧
  w_log (foldl remind_row w rows)
    = w_log w ++ sweep_log (w_smtpConfig w) (w_smtp w) rows.
Proof.
  induction rows as [|r rows IH]; intros w; simpl.
  - unfold sweep_mails, sweep_log. simpl. by rewrite !app_nil_r.
  - destruct (IH (remind_row w r)) as [Hm Hl].
    destruct (remind_row_effect w r) as (Hm1 & Hl1 & Hcfg & Hsmtp).
    rewrite Hm, Hl, Hm1, Hl1, Hcfg, Hsmtp, <- !app_assoc.
    split; f_equal.
    + unfold sweep_mails. simpl. by destruct (PendingRow.customer_email r).
    + unfold sweep_log. simpl.
      destruct (PendingRow.customer_email r) as [to|]; simpl; [|done].
      by destruct (w_smtp w (reminder (w_smtpConfig w) to (PendingRow.id r))).
Qed.

Lemma BackgroundTask_turn_permit w :
  (Allow (w_taskLimiter w) "background-task" (w_now w)).1 = true →
  w_mails (BackgroundTask_turn w) = w_mails (SendPendingOrderReminders w) ∧
  w_log (BackgroundTask_turn w) = w_log (SendPendingOrderReminders w).
Proof.
  unfold BackgroundTask_turn.
  destruct (Allow (w_taskLimiter w) "background-task" (w_now w)) as [ok lim]. simpl.
  intros ->. unfold SendPendingOrderReminders. simpl.
  destruct (query_pending_orders (w_db w) (w_choices w)) as [rows|err]; simpl; [|done].
  destruct (sweep_effect rows (set_taskLimiter lim w)) as [-> ->].
  by destruct (sweep_effect rows w) as [-> ->].
Qed.

(** The sweep as the statement of line 498 reads it.  In a turn of the
    scheduler that obtains the permit: when the query for the pending orders
    fails, the failure is logged and no mail is handed to the mail server;
    when it succeeds, which takes a table [orders] with a column
    [customer_email], the mail server is called for every row with the row's
    address and order id, in the order of the rows and whatever it answered
    for earlier rows, and every refusal is a line of the log. *)
Theorem reminder_sweep_notifies_every_pending_order
    (w : World)
    (Hpermit : (Allow (w_taskLimiter w) "background-task" (w_now w)).1 = true) :
  (∀ err, query_pending_orders (w_db w) (w_choices w) = Err err →
     w_mails (BackgroundTask_turn w) = w_mails w ∧
     w_log (BackgroundTask_turn w) =
       w_log w ++ [ {| log_text := "Error querying pending orders:";
                       log_err := Some err |} ]) ∧
  (∀ rows, query_pending_orders (w_db w) (w_choices w) = Ok rows →
     w_mails (BackgroundTask_turn w) = w_mails w ++ sweep_mails (w_smtpConfig w) rows ∧
     w_log (BackgroundTask_turn w) =
       w_log w ++ sweep_log (w_smtpConfig w) (w_smtp w) rows ∧
     ∀ o customer_email to,
       o ∈ orders (w_db w) → OrderRow.status o = "Pending" →
       orders_customer_email (w_db w) = Some customer_email →
       customer_email (OrderRow.id o) = Some to →
       reminder (w_smtpConfig w) to (OrderRow.id o) ∈ w_mails (BackgroundTask_turn w)).
Proof.
  destruct (BackgroundTask_turn_permit w Hpermit) as [-> ->].
  unfold SendPendingOrderReminders. split.
  - by intros err ->.
  - intros rows Hq. rewrite Hq.
    destruct (sweep_effect rows w) as [-> ->]. split_and!; [done..|].
    intros o customer_email to Ho Hst Hcol Hto.
    apply elem_of_app. right. unfold sweep_mails. apply list_elem_of_omap.
    exists {| PendingRow.id := OrderRow.id o; PendingRow.customer_email := Some to |}.
    split; [|done].
    unfold query_pending_orders in Hq. rewrite Hcol in Hq.
    destruct (reachable (w_db w)); simpl in Hq; [|done].
    injection Hq as <-. apply elem_of_shuffle, list_elem_of_fmap.
    exists o. rewrite Hto. split; [done|]. by apply list_elem_of_filter.
Qed.

(** At the sample world, whose table [orders] has the column: two orders
    are pending, the mail server refuses the mail for one of them, and both
    are handed to it. *)
Lemma reminder_sweep_notifies_every_pending_order_witness :
  reminder SampleWorld.smtp "ann@example.org" 1 ∈ w_mails (BackgroundTask_turn SampleWorld.w) ∧
  reminder SampleWorld.smtp "bob@example.org" 2 ∈ w_mails (BackgroundTask_turn SampleWorld.w) ∧
  length (w_log (BackgroundTask_turn SampleWorld.w)) = 1%nat.
Proof.
  assert ((Allow (w_taskLimiter SampleWorld.w) "background-task" (w_now SampleWorld.w)).1
          = true) as Hpermit by (vm_compute; reflexivity).
  destruct (reminder_sweep_notifies_every_pending_order SampleWorld.w Hpermit) as [_ Hok].
  edestruct Hok as (_ & Hlog & Hall); [vm_compute; reflexivity|].
  split_and!.
  - eapply (Hall (OrderRow.mk 1 7 1000 "Pending") _ "ann@example.org");
      [|reflexivity..]. simpl. apply elem_of_cons. by left.
  - eapply (Hall (OrderRow.mk 2 8 2000 "Pending") _ "bob@example.org");
      [|reflexivity..]. simpl. apply elem_of_cons. right. apply elem_of_cons. by left.
  - rewrite Hlog. vm_compute. reflexivity.
Defined.

Lemma taskLimiter_first_permit key now : (Allow taskLimiter key now).1 = true.
Proof.
  unfold Allow.
  by destruct (allow_with_tokens taskLimiter now 0) as (-> & _).
Qed.

(** C8, evaluated.  The [orders] table [initDB] creates has the columns
    [id], [customer_id], [date] and [status], and no [customer_email], which
    the statement of the sweep names (line 498).  So on tables as [initDB]
    creates them, whatever rows they hold, the first turn of the scheduler
    obtains the permit, the query of its sweep fails, the failure is logged
    and the notification collaborator is not invoked at all; so in the sample
    store, where two orders are pending. *)
Theorem reminder_sweep_fails_on_initDB_tables :
  columns_of "orders" createTableSQL = ["id"; "customer_id"; "date"; "status"] ∧
  orders_customer_email initDB = None ∧
  (∀ w : World,
     let w0 := set_taskLimiter taskLimiter (set_db (on_initDB_tables (w_db w)) w) in
     (Allow (w_taskLimiter w0) "background-task" (w_now w0)).1 = true ∧
     w_mails (BackgroundTask_turn w0) = w_mails w ∧
     ∃ err, w_log (BackgroundTask_turn w0) =
              w_log w ++ [ {| log_text := "Error querying pending orders:";
                              log_err := Some err |} ]) ∧
  on_initDB_tables Sample.db = Sample.db_initDB ∧
  length (filter (λ o, OrderRow.status o = "Pending") (orders Sample.db_initDB)) = 2%nat ∧
  w_mails (BackgroundTask_turn (set_db Sample.db_initDB SampleWorld.w)) = [] ∧
  w_log (BackgroundTask_turn (set_db Sample.db_initDB SampleWorld.w))
    = [ {| log_text := "Error querying pending orders:";
           log_err := Some (ErrUndefinedColumn "customer_email") |} ].
Proof.
  split_and!; [reflexivity..| |reflexivity|reflexivity| |].
  - intros w w0.
    assert ((Allow (w_taskLimiter w0) "background-task" (w_now w0)).1 = true) as Hpermit
      by apply taskLimiter_first_permit.
    split; [done|].
    destruct (BackgroundTask_turn_permit w0 Hpermit) as [-> ->].
    unfold SendPendingOrderReminders, query_pending_orders. simpl.
    destruct (reachable (w_db w)); simpl; eauto.
  - vm_compute. reflexivity.
  - vm_compute. reflexivity.
Qed.

(** * Further properties *)

(** ** The grouped reads on a store *)

Lemma all_orders_scans db ch rows :
  query_all_orders db ch = Ok rows →
  Forall AllOrders.scans rows ↔
  ∀ o op p, (o, op, p) ∈ orders_join db →
            fits_float64 (ProductRow.price p) = true ∧
            is_Some (ProductRow.description p) ∧ is_Some (ProductRow.image_url p).
Proof.
  intros Hq. rewrite Forall_forall. split.
  - intros Hs o op p Hj.
    apply (Hs (select_all_orders (o, op, p))).
    apply (query_all_orders_rows _ _ _ _ Hq). eauto.
  - intros Hp r Hr.
    apply (query_all_orders_rows _ _ _ _ Hq) in Hr as ([[o op] p] & Hj & ->).
    apply (Hp o op p Hj).
Qed.

Lemma customer_orders_scans db ch customerID rows :
  query_customer_orders db ch customerID = Ok rows →
  Forall CustomerOrders.scans rows ↔
  ∀ o op p, (o, op, p) ∈ orders_join db → OrderRow.customer_id o = customerID →
            fits_float64 (ProductRow.price p) = true ∧
            is_Some (ProductRow.description p) ∧ is_Some (ProductRow.image_url p).
Proof.
  intros Hq. rewrite Forall_forall. split.
  - intros Hs o op p Hj Hc.
    apply (Hs (select_customer_orders (o, op, p))).
    apply (query_customer_orders_rows _ _ _ _ _ Hq). exists (o, op, p). done.
  - intros Hp r Hr.
    apply (query_customer_orders_rows _ _ _ _ _ Hq) in Hr as ([[o op] p] & Hj & Hc & ->).
    apply (Hp o op p Hj Hc).
Qed.

(** X1.  On a store that answers, a grouped read returns a result exactly
    when every product in its join can be scanned: its price is within the
    range of a [float64], and neither its description nor its image URL is
    NULL.  One product that cannot makes the whole call fail, also for the
    orders that do not contain it. *)
Theorem grouped_reads_all_or_nothing (db : DB) (ch : Choices)
    (Hup : reachable db = true) :
  ((∃ res, getAllOrdersWithProducts db ch = Ok res) ↔
   ∀ o op p, (o, op, p) ∈ orders_join db →
             fits_float64 (ProductRow.price p) = true ∧
             is_Some (ProductRow.description p) ∧ is_Some (ProductRow.image_url p)) ∧
  (∀ customerID,
     (∃ res, getCustomerOrdersWithProducts db ch customerID = Ok res) ↔
     ∀ o op p, (o, op, p) ∈ orders_join db → OrderRow.customer_id o = customerID →
               fits_float64 (ProductRow.price p) = true ∧
               is_Some (ProductRow.description p) ∧ is_Some (ProductRow.image_url p)).
Proof.
  split.
  - unfold getAllOrdersWithProducts.
    destruct (query_all_orders db ch) as [rows|e] eqn:Hq.
    2: { unfold query_all_orders in Hq. by rewrite Hup in Hq. }
    rewrite <- (all_orders_scans _ _ _ Hq). split.
    + intros [res Hres]. by apply all_aggregate_Ok in Hres as [Hs _].
    + intros Hs. unfold AllOrders.aggregate.
      rewrite AllOrdersFacts.all_loop_foldl by done. eauto.
  - intros customerID. unfold getCustomerOrdersWithProducts.
    destruct (query_customer_orders db ch customerID) as [rows|e] eqn:Hq.
    2: { unfold query_customer_orders in Hq. by rewrite Hup in Hq. }
    rewrite <- (customer_orders_scans _ _ _ _ Hq). split.
    + intros [res Hres]. by apply customer_aggregate_Ok in Hres as [Hs _].
    + intros Hs. unfold CustomerOrders.aggregate.
      rewrite CustomerOrdersFacts.customer_loop_foldl by done. eauto.
Qed.

(** X1, at the sample store; at the store whose pen has no description,
    where the read of all orders fails, though order 2 has no pen, and
    customer 8, who ordered none, is still served; and at the store whose
    ink has a price beyond the range of a [float64]. *)
Lemma grouped_reads_all_or_nothing_witness :
  (∃ res, getAllOrdersWithProducts Sample.db Sample.ch = Ok res) ∧
  ¬ (∃ res, getAllOrdersWithProducts SampleNull.db Sample.ch = Ok res) ∧
  ¬ (∃ res, getAllOrdersWithProducts SampleRange.db Sample.ch = Ok res) ∧
  (∃ res, getCustomerOrdersWithProducts SampleNull.db Sample.ch 8 = Ok res).
Proof.
  split_and!.
  - destruct (grouped_reads_all_or_nothing Sample.db Sample.ch eq_refl) as [[_ Hall] _].
    apply Hall.
    intros o op p (_ & _ & Hp & _)%elem_of_orders_join. simpl in Hp.
    rewrite !elem_of_cons, elem_of_nil in Hp.
    destruct Hp as [->|[->|[]]]; (split; [vm_compute; reflexivity | simpl; eauto]).
  - intros Hres.
    destruct (grouped_reads_all_or_nothing SampleNull.db Sample.ch eq_refl) as [[Hall _] _].
    destruct (Hall Hres (OrderRow.mk 1 7 1000 "Pending") (OrderProductRow.mk 1 3)
                SampleNull.pen) as (_ & [d Hd] & _); [|done].
    apply elem_of_orders_join. simpl. rewrite !elem_of_cons. tauto.
  - intros Hres.
    destruct (grouped_reads_all_or_nothing SampleRange.db Sample.ch eq_refl) as [[Hall _] _].
    destruct (Hall Hres (OrderRow.mk 2 8 2000 "Pending") (OrderProductRow.mk 2 5)
                SampleRange.ink) as (Hfit & _); [|vm_compute in Hfit; discriminate Hfit].
    apply elem_of_orders_join. simpl. rewrite !elem_of_cons. tauto.
  - destruct (grouped_reads_all_or_nothing SampleNull.db Sample.ch eq_refl) as [_ Hcust].
    apply (Hcust 8).
    intros o op p (Ho & Hop & Hp & Hid & Hpid)%elem_of_orders_join Hc. simpl in *.
    rewrite !elem_of_cons, elem_of_nil in Ho.
    rewrite !elem_of_cons, elem_of_nil in Hop.
    rewrite !elem_of_cons, elem_of_nil in Hp.
    destruct Ho as [->|[->|[->|[]]]]; simpl in *; try done.
    destruct Hop as [->|[->|[->|[]]]]; simpl in *; try done.
    destruct Hp as [->|[->|[]]]; simpl in *; try done;
      (split; [vm_compute; reflexivity | eauto]).
Defined.

Lemma aggregate_record_of_row {R} (key : R → Z) (fresh : R → OWP) (entry : R → Product.t)
    (picks : list nat) (rows : list R) (o : OWP) :
  (∀ r, OrderWithProducts.ID (fresh r) = key r) →
  o ∈ map_values picks (foldl (step key fresh entry) ∅ rows) →
  ∃ r, r ∈ rows ∧ key r = OrderWithProducts.ID o ∧
       OrderWithProducts.CustomerID o = OrderWithProducts.CustomerID (fresh r) ∧
       OrderWithProducts.Date o = OrderWithProducts.Date (fresh r) ∧
       OrderWithProducts.Status o = OrderWithProducts.Status (fresh r).
Proof.
  intros Hid Ho. apply elem_of_map_values in Ho; [|done].
  apply grouped_Some in Ho as (r & rest & E & Hk & Ho).
  exists r. split_and!; [|done|by rewrite Ho, foldl_append_product..].
  assert (r ∈ rows_of key (OrderWithProducts.ID o) rows) as Hin by (rewrite E; left).
  unfold rows_of in Hin. by apply list_elem_of_filter in Hin as [_ ?].
Qed.

(** X2.  What [getCustomerOrdersWithProducts] returns for a customer are
    that customer's orders: the ids of the result are the ids of the orders
    of the customer that have an association row with a product, and each
    record has the date and status of an order row of the customer with the
    record's id. *)
Theorem customer_orders_are_the_customers_own
    (db : DB) (ch : Choices) (customerID : Z) (res : list OWP)
    (Hres : getCustomerOrdersWithProducts db ch customerID = Ok res) :
  (∀ id, id ∈ OrderWithProducts.ID <$> res ↔
         ∃ o op p, (o, op, p) ∈ orders_join db ∧
                   OrderRow.customer_id o = customerID ∧ OrderRow.id o = id) ∧
  (∀ rec, rec ∈ res →
     ∃ o, o ∈ orders db ∧ OrderRow.id o = OrderWithProducts.ID rec ∧
          OrderRow.customer_id o = customerID ∧
          OrderWithProducts.Date rec = OrderRow.date o ∧
          OrderWithProducts.Status rec = OrderRow.status o).
Proof.
  unfold getCustomerOrdersWithProducts in Hres.
  destruct (query_customer_orders db ch customerID) as [rows|] eqn:Hq; [|done].
  apply customer_aggregate_Ok in Hres as [_ ->]. split.
  - intros id. rewrite map_values_id_iff by done. rewrite list_elem_of_fmap. split.
    + intros (r & -> & Hr).
      apply (query_customer_orders_rows _ _ _ _ _ Hq) in Hr as ([[o op] p] & Hj & Hc & ->).
      exists o, op, p. done.
    + intros (o & op & p & Hj & Hc & <-).
      exists (select_customer_orders (o, op, p)). split; [done|].
      apply (query_customer_orders_rows _ _ _ _ _ Hq). exists (o, op, p). done.
  - intros rec Hrec.
    apply aggregate_record_of_row in Hrec as (r & Hr & Hk & _ & Hd & Hs); [|done].
    apply (query_customer_orders_rows _ _ _ _ _ Hq) in Hr as ([[o op] p] & Hj & Hc & ->).
    apply elem_of_orders_join in Hj as (Ho & _). exists o. done.
Qed.

(** X2, at customer 7 of the sample store, whose only order with products
    is order 1. *)
Lemma customer_orders_are_the_customers_own_witness :
  ∃ res, getCustomerOrdersWithProducts Sample.db Sample.ch 7 = Ok res ∧
         (2 ∉ OrderWithProducts.ID <$> res) ∧
         ∀ rec, rec ∈ res →
           ∃ o, o ∈ orders Sample.db ∧ OrderRow.id o = OrderWithProducts.ID rec ∧
                OrderRow.customer_id o = 7 ∧
                OrderWithProducts.Date rec = OrderRow.date o ∧
                OrderWithProducts.Status rec = OrderRow.status o.
Proof.
  eexists. split; [vm_compute; reflexivity|].
  edestruct (customer_orders_are_the_customers_own Sample.db Sample.ch 7) as [Hids Hrec];
    [vm_compute; reflexivity|].
  split; [|exact Hrec].
  intros (o & op & p & Hj & Hc & Hid)%Hids.
  apply elem_of_orders_join in Hj as (Ho & _). simpl in Ho.
  rewrite !elem_of_cons, elem_of_nil in Ho.
  destruct Ho as [->|[->|[->|[]]]]; simpl in *; done.
Defined.

(** X3.  Every record [getAllOrdersWithProducts] returns has the customer
    id, the date and the status of an order row of the store with the
    record's id, and the ids of the result are the ids of the orders that
    have an association row with a product. *)
Theorem all_orders_records_carry_their_order
    (db : DB) (ch : Choices) (res : list OWP)
    (Hres : getAllOrdersWithProducts db ch = Ok res) :
  (∀ id, id ∈ OrderWithProducts.ID <$> res ↔
         ∃ o op p, (o, op, p) ∈ orders_join db ∧ OrderRow.id o = id) ∧
  (∀ rec, rec ∈ res →
     ∃ o, o ∈ orders db ∧ OrderRow.id o = OrderWithProducts.ID rec ∧
          OrderWithProducts.CustomerID rec = OrderRow.customer_id o ∧
          OrderWithProducts.Date rec = OrderRow.date o ∧
          OrderWithProducts.Status rec = OrderRow.status o).
Proof.
  unfold getAllOrdersWithProducts in Hres.
  destruct (query_all_orders db ch) as [rows|] eqn:Hq; [|done].
  apply all_aggregate_Ok in Hres as [_ ->]. split.
  - intros id. rewrite map_values_id_iff by done. rewrite list_elem_of_fmap. split.
    + intros (r & -> & Hr).
      apply (query_all_orders_rows _ _ _ _ Hq) in Hr as ([[o op] p] & Hj & ->).
      exists o, op, p. done.
    + intros (o & op & p & Hj & <-).
      exists (select_all_orders (o, op, p)). split; [done|].
      apply (query_all_orders_rows _ _ _ _ Hq). exists (o, op, p). done.
  - intros rec Hrec.
    apply aggregate_record_of_row in Hrec as (r & Hr & Hk & Hc & Hd & Hs); [|done].
    apply (query_all_orders_rows _ _ _ _ Hq) in Hr as ([[o op] p] & Hj & ->).
    apply elem_of_orders_join in Hj as (Ho & _). exists o. done.
Qed.

(** X3, at the sample store: the record of order 2 names customer 8. *)
Lemma all_orders_records_carry_their_order_witness :
  ∃ res, getAllOrdersWithProducts Sample.db Sample.ch = Ok res ∧
         (∃ rec, rec ∈ res ∧ OrderWithProducts.ID rec = 2 ∧
                 OrderWithProducts.CustomerID rec = 8) ∧
         ∀ rec, rec ∈ res →
           ∃ o, o ∈ orders Sample.db ∧ OrderRow.id o = OrderWithProducts.ID rec ∧
                OrderWithProducts.CustomerID rec = OrderRow.customer_id o ∧
                OrderWithProducts.Date rec = OrderRow.date o ∧
                OrderWithProducts.Status rec = OrderRow.status o.
Proof.
  eexists. split; [vm_compute; reflexivity|].
  edestruct (all_orders_records_carry_their_order Sample.db Sample.ch) as [_ Hrec];
    [vm_compute; reflexivity|].
  split; [|exact Hrec].
  eexists. split; [apply elem_of_cons; right; apply elem_of_cons; left; reflexivity|].
  split; reflexivity.
Defined.

Lemma NoDup_fmap_eq {A B} (f : A → B) (l : list A) (x y : A) :
  NoDup (f <$> l) → x ∈ l → y ∈ l → f x = f y → x = y.
Proof.
  induction l as [|a l IH]; intros Hnd Hx Hy Hf; [by apply elem_of_nil in Hx|].
  rewrite fmap_cons in Hnd. apply NoDup_cons in Hnd as [Ha Hnd].
  apply elem_of_cons in Hx as [->|Hx]; apply elem_of_cons in Hy as [->|Hy].
  - done.
  - exfalso. apply Ha. rewrite Hf. by apply list_elem_of_fmap_2.
  - exfalso. apply Ha. rewrite <- Hf. by apply list_elem_of_fmap_2.
  - by apply IH.
Qed.

(** X4.  On a store whose order ids are a key, the result of
    [getAllOrdersWithProducts] does not depend on the order in which the rows
    arrive or in which the map is ranged over: another call on the same store
    also succeeds and returns the same orders, each once, with the same
    header fields and the same products up to their order. *)
Theorem all_orders_independent_of_arrival_order
    (db : DB) (ch1 ch2 : Choices) (res1 : list OWP)
    (Hkey : NoDup (OrderRow.id <$> orders db))
    (Hres1 : getAllOrdersWithProducts db ch1 = Ok res1) :
  ∃ res2, getAllOrdersWithProducts db ch2 = Ok res2 ∧ same_orders res1 res2.
Proof.
  assert (∃ res2, getAllOrdersWithProducts db ch2 = Ok res2) as [res2 Hres2].
  { unfold getAllOrdersWithProducts, query_all_orders in *.
    destruct (reachable db); simpl in *; [|done].
    apply all_aggregate_Ok in Hres1 as [Hs _].
    unfold AllOrders.aggregate. rewrite AllOrdersFacts.all_loop_foldl; [eauto|].
    apply Forall_forall. intros r Hr. rewrite Forall_forall in Hs. apply Hs.
    by rewrite elem_of_shuffle in *. }
  exists res2. split; [done|].
  pose proof Hres1 as H1. pose proof Hres2 as H2.
  unfold getAllOrdersWithProducts in H1, H2.
  destruct (query_all_orders db ch1) as [rows1|] eqn:Hq1; [|done].
  destruct (query_all_orders db ch2) as [rows2|] eqn:Hq2; [|done].
  apply all_aggregate_Ok in H1 as [_ E1]. apply all_aggregate_Ok in H2 as [_ E2].
  split.
  - apply NoDup_Permutation.
    + rewrite E1. by apply map_values_NoDup.
    + rewrite E2. by apply map_values_NoDup.
    + intros id. rewrite E1, E2, !map_values_id_iff by done.
      rewrite !list_elem_of_fmap.
      split; intros (r & -> & Hr); exists r; (split; [done|]).
      * apply (query_all_orders_rows _ _ _ _ Hq2).
        by apply (query_all_orders_rows _ _ _ _ Hq1) in Hr.
      * apply (query_all_orders_rows _ _ _ _ Hq1).
        by apply (query_all_orders_rows _ _ _ _ Hq2) in Hr.
  - intros o1 o2 Ho1 Ho2 Hid.
    pose proof (all_orders_products _ _ _ _ Hres1 Ho1) as Hp1.
    pose proof (all_orders_products _ _ _ _ Hres2 Ho2) as Hp2.
    rewrite E1 in Ho1. rewrite E2 in Ho2.
    apply aggregate_record_of_row in Ho1 as (r1 & Hr1 & Hk1 & Hc1 & Hd1 & Hs1); [|done].
    apply aggregate_record_of_row in Ho2 as (r2 & Hr2 & Hk2 & Hc2 & Hd2 & Hs2); [|done].
    apply (query_all_orders_rows _ _ _ _ Hq1) in Hr1 as ([[a1 op1] p1] & Hj1 & ->).
    apply (query_all_orders_rows _ _ _ _ Hq2) in Hr2 as ([[a2 op2] p2] & Hj2 & ->).
    apply elem_of_orders_join in Hj1 as (Ha1 & _).
    apply elem_of_orders_join in Hj2 as (Ha2 & _).
    simpl in *.
    assert (a1 = a2) as <-.
    { apply (NoDup_fmap_eq OrderRow.id (orders db)); [done..|]. congruence. }
    unfold same_order. split_and!; [done|congruence..|].
    rewrite Hp1, Hp2, Hid. done.
Qed.

(** X4, at the sample store and two different arrival orders. *)
Lemma all_orders_independent_of_arrival_order_witness :
  ∃ res1 res2,
    getAllOrdersWithProducts Sample.db Sample.ch = Ok res1 ∧
    getAllOrdersWithProducts Sample.db {| row_order := []; map_order := [] |} = Ok res2 ∧
    res1 ≠ res2 ∧ same_orders res1 res2.
Proof.
  assert (NoDup (OrderRow.id <$> orders Sample.db)) as Hkey.
  { refine (bool_decide_unpack _ _). vm_compute. exact I. }
  eexists.
  destruct (all_orders_independent_of_arrival_order Sample.db Sample.ch
              {| row_order := []; map_order := [] |} _ Hkey eq_refl)
    as (res2 & Hres2 & Hsame).
  exists res2. split_and!; [vm_compute; reflexivity|exact Hres2| |exact Hsame].
  intros <-. vm_compute in Hres2. discriminate Hres2.
Defined.

(** ** The details of one order *)

Lemma order_details_loop_scans rows : ∀ order res,
  OrderDetails.loop rows order = Ok res →
  Forall OrderDetails.scans rows.
Proof.
  induction rows as [|r rows IH]; intros order res; simpl; [by constructor|].
  unfold scan_float64.
  destruct (fits_float64 (OrderDetailsRow.price r)) eqn:Hp; simpl; [|done].
  destruct (OrderDetailsRow.quantity r) as [q|] eqn:Hq; simpl; [|done].
  intros H. constructor; [|by eapply IH].
  split; [done | by rewrite Hq].
Qed.

(** X5.  The line items [getOrderDetails] returns are the association rows
    of the order, when it belongs to the customer: one item per row of the
    join, with the id, name and price of the product and the quantity of
    the association row; the description and the image URL of an item are
    always empty, the statement does not select them. *)
Theorem order_details_line_items
    (db : DB) (ch : Choices) (orderID customerID : Z) (res : OWP)
    (Hres : getOrderDetails db ch orderID customerID = Ok res) :
  ∃ op_quantity,
    order_products_quantity db = Some op_quantity ∧
    OrderWithProducts.Products res ≡ₚ
      OrderDetails.item <$>
        (OrderDetails.select op_quantity <$>
           filter (λ j, OrderRow.id j.1.1 = orderID ∧ OrderRow.customer_id j.1.1 = customerID)
                  (orders_join db)) ∧
    (∀ o op p, (o, op, p) ∈ orders_join db →
       OrderRow.id o = orderID → OrderRow.customer_id o = customerID →
       ∃ quantity,
         op_quantity (OrderProductRow.order_id op) (OrderProductRow.product_id op)
           = Some quantity ∧
         {| Product.ID := ProductRow.id p;
            Product.Name := ProductRow.name p;
            Product.Price := ProductRow.price p;
            Product.Description := "";
            Product.ImageURL := "";
            Product.Quantity := quantity |} ∈ OrderWithProducts.Products res) ∧
    (∀ item, item ∈ OrderWithProducts.Products res →
       Product.Description item = "" ∧ Product.ImageURL item = "").
Proof.
  unfold getOrderDetails in Hres.
  destruct (OrderDetails.query db ch orderID customerID) as [rows|] eqn:Hq; [|done].
  pose proof (order_details_loop_scans _ _ _ Hres) as Hqs.
  apply order_details_loop_Ok in Hres as (Hps & _ & _). simpl in Hps.
  pose proof Hq as Hq'. unfold OrderDetails.query in Hq'.
  destruct (reachable db); simpl in Hq'; [|done].
  destruct (order_products_quantity db) as [op_quantity|] eqn:Hcol; [|done].
  injection Hq' as Hrows.
  exists op_quantity. split_and!; [done|..].
  - rewrite Hps, <- Hrows. by rewrite shuffle_perm.
  - intros o op p Hj Hid Hc.
    assert (OrderDetails.select op_quantity (o, op, p) ∈ rows) as Hr.
    { apply (query_order_details_rows _ _ _ _ _ _ Hq). exists op_quantity, (o, op, p).
      rewrite Hcol. done. }
    rewrite Forall_forall in Hqs. destruct (Hqs _ Hr) as [_ [quantity Hquantity]].
    simpl in Hquantity. exists quantity. split; [done|].
    rewrite Hps. apply list_elem_of_fmap.
    exists (OrderDetails.select op_quantity (o, op, p)). split; [|done].
    unfold OrderDetails.item. simpl. by rewrite Hquantity.
  - intros item. rewrite Hps. by intros (r & -> & _)%list_elem_of_fmap.
Qed.

(** X5, at order 1 of customer 7 in the sample store: two line items, the
    pen and the ink, each with quantity 2. *)
Lemma order_details_line_items_witness :
  ∃ res, getOrderDetails Sample.db Sample.ch 1 7 = Ok res ∧
    {| Product.ID := 3; Product.Name := "pen"; Product.Price := Sample.price_199;
       Product.Description := ""; Product.ImageURL := ""; Product.Quantity := 2 |}
      ∈ OrderWithProducts.Products res ∧
    length (OrderWithProducts.Products res) = 2%nat.
Proof.
  eexists. split; [vm_compute; reflexivity|].
  edestruct (order_details_line_items Sample.db Sample.ch 1 7)
    as (q & Hq & Hperm & Hrows & _); [vm_compute; reflexivity|].
  split; [|reflexivity].
  destruct (Hrows (OrderRow.mk 1 7 1000 "Pending") (OrderProductRow.mk 1 3) Sample.pen)
    as (quantity & Hquantity & Hin); [|done..|].
  - apply elem_of_orders_join. simpl. rewrite !elem_of_cons. tauto.
  - injection Hq as <-. simpl in Hquantity. injection Hquantity as <-. exact Hin.
Defined.

Lemma order_details_header db ch orderID customerID res :
  getOrderDetails db ch orderID customerID = Ok res →
  OrderWithProducts.ID res = orderID ∧ OrderWithProducts.CustomerID res = customerID.
Proof.
  unfold getOrderDetails.
  destruct (OrderDetails.query db ch orderID customerID) as [rows|] eqn:Hq; [|done].
  intros (_ & Hnil & Hlast)%order_details_loop_Ok.
  destruct (last rows) as [r|] eqn:Hl.
  - destruct (Hlast r eq_refl) as (-> & -> & _).
    apply last_Some_elem_of in Hl.
    apply (query_order_details_rows _ _ _ _ _ _ Hq) in Hl
      as (q & [[o op] p] & _ & _ & Hid & Hc & ->). done.
  - apply last_None in Hl. by rewrite (Hnil Hl).
Qed.

Lemma order_details_products db ch orderID customerID res :
  getOrderDetails db ch orderID customerID = Ok res →
  ∃ op_quantity,
    order_products_quantity db = Some op_quantity ∧
    OrderWithProducts.Products res ≡ₚ
      OrderDetails.item <$>
        (OrderDetails.select op_quantity <$>
           filter (λ j, OrderRow.id j.1.1 = orderID ∧ OrderRow.customer_id j.1.1 = customerID)
                  (orders_join db)).
Proof.
  unfold getOrderDetails, OrderDetails.query.
  destruct (reachable db); simpl; [|done].
  destruct (order_products_quantity db) as [op_quantity|]; [|done].
  intros (Hps & _ & _)%order_details_loop_Ok. simpl in Hps.
  exists op_quantity. split; [done|]. by rewrite Hps, shuffle_perm.
Qed.

(** ** The report *)

Lemma GenerateCSVReport_frame orderID customerID w :
  w_now (GenerateCSVReport orderID customerID w).2 = w_now w ∧
  w_rateLimiter (GenerateCSVReport orderID customerID w).2 = w_rateLimiter w ∧
  w_mails (GenerateCSVReport orderID customerID w).2 = w_mails w ∧
  w_db (GenerateCSVReport orderID customerID w).2 = w_db w ∧
  w_log (GenerateCSVReport orderID customerID w).2 = w_log w ∧
  ∀ name, name ≠ "order_report.csv" →
    w_files (GenerateCSVReport orderID customerID w).2 !! name = w_files w !! name.
Proof.
  unfold GenerateCSVReport.
  destruct (getOrderDetails _ _ _ _); [|done].
  destruct (w_disk w); try case_decide; simpl; split_and!; try done;
    intros name Hne; by rewrite lookup_insert_ne.
Qed.

(** Either nothing is created and an error is returned, or the file holds
    a beginning of the records: a proper one when an error is returned, all
    of them when the disk takes every write. *)
Lemma GenerateCSVReport_written orderID customerID w :
  ((GenerateCSVReport orderID customerID w).2 = w ∧
   is_Some (GenerateCSVReport orderID customerID w).1) ∨
  ∃ order kept,
    getOrderDetails (w_db w) (w_choices w) orderID customerID = Ok order ∧
    (GenerateCSVReport orderID customerID w).2
      = set_file "order_report.csv" (take kept (csv_records order)) w ∧
    (is_Some (GenerateCSVReport orderID customerID w).1 →
       (kept < length (csv_records order))%nat) ∧
    (w_disk_ok w = true →
       (length (csv_records order) ≤ kept)%nat ∧
       (GenerateCSVReport orderID customerID w).1 = None).
Proof.
  unfold GenerateCSVReport, w_disk_ok.
  destruct (getOrderDetails (w_db w) (w_choices w) orderID customerID) as [order|e];
    [|left; eauto].
  destruct (w_disk w) as [| |call kept|kept]; simpl.
  - right. exists order, (length (csv_records order)).
    rewrite firstn_all. split_and!; [done..| |done]. by intros [? [=]].
  - left. eauto.
  - case_decide as Hcall; simpl.
    + right. exists order, (kept `min` call)%nat. split_and!; [done..| |done].
      intros _. lia.
    + right. exists order, (length (csv_records order)).
      rewrite firstn_all. split_and!; [done..| |done]. by intros [? [=]].
  - right. exists order, kept. split_and!; [done..| |done]. by intros [? [=]].
Qed.

(** X6.  [GenerateCSVReport] never writes to the store and touches no file
    but [order_report.csv].  Either it creates nothing and returns an error
    (the order details cannot be read, or the file cannot be created), or it
    leaves in the file a beginning of the report: of the header and one row
    per association row of the order owned by the customer, each row
    beginning with the order id and the customer id asked for.  When it
    returns an error after the file is created, the file is cut short; when
    the disk takes every write, the file is the whole report and no error is
    returned. *)
Theorem csv_report_contents (orderID customerID : Z) (w : World) :
  w_db (GenerateCSVReport orderID customerID w).2 = w_db w ∧
  (∀ name, name ≠ "order_report.csv" →
     w_files (GenerateCSVReport orderID customerID w).2 !! name = w_files w !! name) ∧
  (((GenerateCSVReport orderID customerID w).2 = w ∧
    is_Some (GenerateCSVReport orderID customerID w).1) ∨
   ∃ rows kept,
     (GenerateCSVReport orderID customerID w).2
       = set_file "order_report.csv" (take kept (csv_header :: rows)) w ∧
     length rows =
       length (filter (λ j, OrderRow.id j.1.1 = orderID ∧
                            OrderRow.customer_id j.1.1 = customerID)
                      (orders_join (w_db w))) ∧
     (∀ row, row ∈ rows →
        row !! 0%nat = Some (CellInt orderID) ∧ row !! 1%nat = Some (CellInt customerID)) ∧
     (is_Some (GenerateCSVReport orderID customerID w).1 → (kept ≤ length rows)%nat) ∧
     (w_disk_ok w = true →
        (length rows < kept)%nat ∧ (GenerateCSVReport orderID customerID w).1 = None)).
Proof.
  destruct (GenerateCSVReport_frame orderID customerID w) as (_ & _ & _ & Hdb & _ & Hfiles).
  split_and!; [done..|].
  destruct (GenerateCSVReport_written orderID customerID w)
    as [Hnone | (order & kept & Hd & Hw & Herr & Hok)]; [by left|].
  right. exists (csv_row order <$> OrderWithProducts.Products order), kept.
  unfold csv_records in *. simpl in Herr, Hok. split_and!.
  - done.
  - destruct (order_details_products _ _ _ _ _ Hd) as (q & _ & Hperm).
    by rewrite length_fmap, Hperm, !length_fmap.
  - intros row (p & -> & _)%list_elem_of_fmap.
    destruct (order_details_header _ _ _ _ _ Hd) as [Hi Hc].
    unfold csv_row. simpl. by rewrite Hi, Hc.
  - intros He. specialize (Herr He). lia.
  - intros Hdisk. destruct (Hok Hdisk) as [Hlen Hnone]. split; [lia|done].
Qed.

(** X6, at order 1 of customer 7 in the sample world (two rows under the
    header); on a disk that refuses the file (nothing changes); on a disk
    that fails in the third call of [writer.Write], when only the header had
    reached the file (an error, and a report of the header alone); and on a
    disk where the deferred [Flush] fails (no error, and an empty file). *)
Lemma csv_report_contents_witness :
  (∃ rows,
     w_files (GenerateCSVReport 1 7 SampleWorld.w).2 !! "order_report.csv"
       = Some (csv_header :: rows) ∧
     length rows = 2%nat ∧
     ∀ row, row ∈ rows →
       row !! 0%nat = Some (CellInt 1) ∧ row !! 1%nat = Some (CellInt 7)) ∧
  (GenerateCSVReport 1 7 SampleDisk.w).2 = SampleDisk.w ∧
  (is_Some (GenerateCSVReport 1 7 (SampleDisk.with_disk (WriteFails 2 1))).1 ∧
   w_files (GenerateCSVReport 1 7 (SampleDisk.with_disk (WriteFails 2 1))).2
     !! "order_report.csv" = Some [csv_header]) ∧
  ((GenerateCSVReport 1 7 (SampleDisk.with_disk (FlushFails 0))).1 = None ∧
   w_files (GenerateCSVReport 1 7 (SampleDisk.with_disk (FlushFails 0))).2
     !! "order_report.csv" = Some []).
Proof.
  split_and!.
  - destruct (csv_report_contents 1 7 SampleWorld.w)
      as (_ & _ & [[_ [e He]] | (rows & kept & Hw & Hlen & Hrows & _ & Hok)]).
    { vm_compute in He. discriminate He. }
    destruct (Hok eq_refl) as [Hkept _].
    exists rows. rewrite Hw. simpl. rewrite lookup_insert_eq.
    destruct kept as [|kept]; [lia|]. simpl.
    rewrite firstn_all2 by lia. split_and!; [done| |exact Hrows].
    rewrite Hlen. vm_compute. reflexivity.
  - vm_compute. reflexivity.
  - exists (ErrIO "write order_report.csv"). vm_compute. reflexivity.
  - vm_compute. reflexivity.
  - vm_compute. reflexivity.
  - vm_compute. reflexivity.
Defined.

(** X7.  Asked for an order that the customer does not own (or that does
    not exist), on a store that answers and a disk that takes the file,
    [GenerateCSVReport] reports no error and writes a report of the header
    alone, in place of any earlier report. *)
Theorem csv_report_of_foreign_order
    (orderID customerID : Z) (w : World) (op_quantity : Z → Z → option Z)
    (Hup : reachable (w_db w) = true)
    (Hcol : order_products_quantity (w_db w) = Some op_quantity)
    (Hdisk : w_disk_ok w = true)
    (Hother : ∀ o, o ∈ orders (w_db w) → OrderRow.id o = orderID →
                   OrderRow.customer_id o ≠ customerID) :
  GenerateCSVReport orderID customerID w
    = (None, set_file "order_report.csv" [csv_header] w).
Proof.
  unfold GenerateCSVReport.
  rewrite order_details_no_rows.
  - rewrite Hup, Hcol. unfold w_disk_ok in Hdisk. by destruct (w_disk w).
  - intros [[o op] p] (Ho & _)%elem_of_orders_join [Hid Hc]. simpl in *.
    by apply (Hother o).
Qed.

(** X7, at order 2 of the sample world, asked for by customer 7. *)
Lemma csv_report_of_foreign_order_witness :
  w_files (GenerateCSVReport 2 7 SampleWorld.w).2 !! "order_report.csv"
    = Some [csv_header].
Proof.
  rewrite (csv_report_of_foreign_order 2 7 SampleWorld.w (λ order_id _, Some (order_id + 1)));
    [reflexivity..|].
  intros o Ho. simpl in Ho. rewrite !elem_of_cons, elem_of_nil in Ho.
  destruct Ho as [->|[->|[->|[]]]]; done.
Defined.

(** ** What the handlers leave alone *)

Lemma createOrder_frame orderRequest w :
  w_now (createOrder orderRequest w).2 = w_now w ∧
  w_rateLimiter (createOrder orderRequest w).2 = w_rateLimiter w ∧
  w_mails (createOrder orderRequest w).2 = w_mails w ∧
  w_files (createOrder orderRequest w).2 = w_files w ∧
  w_log (createOrder orderRequest w).2 = w_log w.
Proof.
  unfold createOrder. destruct (reachable (w_db w)); simpl; [|done].
  by case_bool_decide.
Qed.

Lemma associateProducts_frame orderID items : ∀ w,
  w_now (associateProducts orderID items w).2 = w_now w ∧
  w_rateLimiter (associateProducts orderID items w).2 = w_rateLimiter w ∧
  w_mails (associateProducts orderID items w).2 = w_mails w ∧
  w_files (associateProducts orderID items w).2 = w_files w ∧
  w_log (associateProducts orderID items w).2 = w_log w.
Proof.
  induction items as [|item items IH]; intros w; simpl; [done|].
  destruct (reachable (w_db w)); simpl; [|done].
  destruct (order_products_quantity (w_db w)) as [q|]; [|done].
  case_bool_decide; simpl; [|done].
  case_bool_decide; simpl; [done|].
  by destruct (IH (set_db (insert_order_product
                             {| OrderProductRow.order_id := orderID;
                                OrderProductRow.product_id := OrderItem.ProductID item |}
                             (OrderItem.Quantity item) q (w_db w)) w))
    as (-> & -> & -> & -> & ->).
Qed.

Lemma PlaceOrderHandler_frame rw r w :
  w_now (PlaceOrderHandler rw r w).2 = w_now w ∧
  w_rateLimiter (PlaceOrderHandler rw r w).2 = w_rateLimiter w ∧
  w_mails (PlaceOrderHandler rw r w).2 = w_mails w.
Proof.
  unfold PlaceOrderHandler.
  destruct (Body r) as [e|e|orderRequest]; [done..|].
  destruct (validateOrderRequest orderRequest); [done|].
  pose proof (createOrder_frame orderRequest w) as Hc.
  destruct (createOrder orderRequest w) as [[orderID|e] w1]; simpl in Hc;
    destruct Hc as (Hn1 & Hr1 & Hm1 & _); [|done].
  pose proof (associateProducts_frame orderID (OrderRequest.Products orderRequest) w1) as Ha.
  destruct (associateProducts orderID (OrderRequest.Products orderRequest) w1)
    as [[e|] w2]; simpl in Ha; destruct Ha as (Hn2 & Hr2 & Hm2 & _);
    [simpl; by rewrite Hn2, Hr2, Hm2|].
  pose proof (GenerateCSVReport_frame orderID (OrderRequest.CustomerID orderRequest) w2) as Hg.
  destruct (GenerateCSVReport orderID (OrderRequest.CustomerID orderRequest) w2)
    as [[e|] w3]; simpl in Hg; destruct Hg as (Hn3 & Hr3 & Hm3 & _);
    simpl; by rewrite Hn3, Hr3, Hm3, Hn2, Hr2, Hm2.
Qed.

Lemma CustomerOrdersHandler_frame rw r w :
  ∃ lines, (CustomerOrdersHandler rw r w).2 = foldl (λ w l, log_Println (log_text l) (log_err l) w) w lines.
Proof.
  unfold CustomerOrdersHandler.
  destruct (getCustomerOrdersWithProducts _ _ _) as [orders|e].
  - destruct orders; by exists [].
  - by exists [ {| log_text := "Error retrieving customer orders:"; log_err := Some e |} ].
Qed.

Lemma AdminOrdersHandler_frame rw r w :
  ∃ lines, (AdminOrdersHandler rw r w).2 = foldl (λ w l, log_Println (log_text l) (log_err l) w) w lines.
Proof.
  unfold AdminOrdersHandler.
  destruct (getAllOrdersWithProducts _ _) as [orders|e].
  - destruct orders; by exists [].
  - by exists [ {| log_text := "Error retrieving orders:"; log_err := Some e |} ].
Qed.

Lemma logged_frame lines : ∀ w,
  let w' := foldl (λ w l, log_Println (log_text l) (log_err l) w) w lines in
  w_db w' = w_db w ∧ w_now w' = w_now w ∧ w_rateLimiter w' = w_rateLimiter w ∧
  w_taskLimiter w' = w_taskLimiter w ∧ w_mails w' = w_mails w ∧ w_files w' = w_files w.
Proof.
  induction lines as [|l lines IH]; intros w; simpl; [done|].
  by destruct (IH (log_Println (log_text l) (log_err l) w)) as (-> & -> & -> & -> & -> & ->).
Qed.

Lemma AuthMiddleware_frame next role rw r w :
  (AuthMiddleware next role rw r w).2 = w ∨
  AuthMiddleware next role rw r w = next rw r w.
Proof.
  unfold AuthMiddleware. repeat case_decide; auto.
Qed.

Lemma set_rateLimiter_same w : set_rateLimiter (w_rateLimiter w) w = w.
Proof. by destruct w. Qed.

(** ** The routes *)

(** X8.  A request to [/place-order] that is answered 400, 401 or 429
    never writes: the store, the files and the mails are as before.  (Only
    an answer 201 or 500 can come with a changed store.) *)
Theorem place_order_client_errors_do_not_persist
    (rw : ResponseWriter) (r : Request) (w : World)
    (Hfresh : rw_status rw = None)
    (Hstatus : rw_status (place_order rw r w).1 = Some StatusBadRequest ∨
               rw_status (place_order rw r w).1 = Some StatusUnauthorized ∨
               rw_status (place_order rw r w).1 = Some StatusTooManyRequests) :
  w_db (place_order rw r w).2 = w_db w ∧
  w_files (place_order rw r w).2 = w_files w ∧
  w_mails (place_order rw r w).2 = w_mails w.
Proof.
  destruct rw as [h st b]. simpl in Hfresh. subst st.
  revert Hstatus. unfold place_order, RateLimitMiddleware.
  destruct (Allow (w_rateLimiter w) (RemoteAddr r) (w_now w)) as [[] lim]; simpl; [|done].
  unfold AuthMiddleware. rewrite decide_True by done.
  case_decide; [done|].
  unfold PlaceOrderHandler.
  destruct (Body r) as [e|e|orderRequest]; [done..|].
  destruct (validateOrderRequest orderRequest); [done|].
  destruct (createOrder orderRequest (set_rateLimiter lim w)) as [[orderID|e] w1].
  2: { simpl. intros [Hs|[Hs|Hs]]; discriminate Hs. }
  destruct (associateProducts orderID (OrderRequest.Products orderRequest) w1) as [[e|] w2].
  { simpl. intros [Hs|[Hs|Hs]]; discriminate Hs. }
  destruct (GenerateCSVReport orderID (OrderRequest.CustomerID orderRequest) w2)
    as [err w3].
  simpl. intros [Hs|[Hs|Hs]]; discriminate Hs.
Qed.

(** X8, at an order request without products from an authorised customer,
    and at a valid request with the admin's secret. *)
Lemma place_order_client_errors_do_not_persist_witness :
  rw_status (place_order new_ResponseWriter
               (SampleOrders.request SampleOrders.without_products) SampleWorld.w).1
    = Some 400 ∧
  w_db (place_order new_ResponseWriter
          (SampleOrders.request SampleOrders.without_products) SampleWorld.w).2
    = w_db SampleWorld.w ∧
  w_db (place_order new_ResponseWriter SampleWorld.admin_request SampleWorld.w).2
    = w_db SampleWorld.w.
Proof.
  split; [vm_compute; reflexivity|]. split.
  - apply (place_order_client_errors_do_not_persist new_ResponseWriter
             (SampleOrders.request SampleOrders.without_products) SampleWorld.w eq_refl).
    left. vm_compute. reflexivity.
  - apply (place_order_client_errors_do_not_persist new_ResponseWriter
             SampleWorld.admin_request SampleWorld.w eq_refl).
    right. left. vm_compute. reflexivity.
Defined.

Lemma PlaceOrderHandler_status r w :
  rw_status (PlaceOrderHandler new_ResponseWriter r w).1 = Some StatusBadRequest ∨
  rw_status (PlaceOrderHandler new_ResponseWriter r w).1 = Some StatusInternalServerError ∨
  rw_status (PlaceOrderHandler new_ResponseWriter r w).1 = Some StatusCreated.
Proof.
  unfold PlaceOrderHandler.
  destruct (Body r) as [e|e|orderRequest]; [auto..|].
  destruct (validateOrderRequest orderRequest); [auto|].
  destruct (createOrder orderRequest w) as [[orderID|e] w1]; [|auto].
  destruct (associateProducts orderID (OrderRequest.Products orderRequest) w1)
    as [[e|] w2]; [auto|].
  destruct (GenerateCSVReport orderID (OrderRequest.CustomerID orderRequest) w2)
    as [err w3]. auto.
Qed.

Lemma CustomerOrdersHandler_status r w :
  rw_status (CustomerOrdersHandler new_ResponseWriter r w).1 = Some StatusOK ∨
  rw_status (CustomerOrdersHandler new_ResponseWriter r w).1
    = Some StatusInternalServerError.
Proof.
  unfold CustomerOrdersHandler.
  destruct (getCustomerOrdersWithProducts _ _ _) as [orders|e]; [|auto].
  destruct orders; auto.
Qed.

Lemma AdminOrdersHandler_status r w :
  rw_status (AdminOrdersHandler new_ResponseWriter r w).1 = Some StatusOK ∨
  rw_status (AdminOrdersHandler new_ResponseWriter r w).1 = Some StatusInternalServerError.
Proof.
  unfold AdminOrdersHandler.
  destruct (getAllOrdersWithProducts _ _) as [orders|e]; [|auto].
  destruct orders; auto.
Qed.

Lemma AuthMiddleware_status next role r w :
  rw_status (AuthMiddleware next role new_ResponseWriter r w).1 = Some StatusUnauthorized ∨
  rw_status (AuthMiddleware next role new_ResponseWriter r w).1
    = Some StatusInternalServerError ∨
  AuthMiddleware next role new_ResponseWriter r w = next new_ResponseWriter r w.
Proof.
  unfold AuthMiddleware. repeat case_decide; auto.
Qed.

Lemma AuthMiddleware_keeps_limiter next role :
  keeps_limiter next → keeps_limiter (AuthMiddleware next role).
Proof.
  intros Hnext rw r w.
  destruct (AuthMiddleware_frame next role rw r w) as [-> | ->]; [done|apply Hnext].
Qed.

Lemma place_order_inner_good :
  keeps_limiter (AuthMiddleware PlaceOrderHandler "customer") ∧
  never_too_many_requests (AuthMiddleware PlaceOrderHandler "customer").
Proof.
  split.
  - apply AuthMiddleware_keeps_limiter. intros rw r w.
    by destruct (PlaceOrderHandler_frame rw r w) as (? & ? & _).
  - intros r w.
    destruct (AuthMiddleware_status PlaceOrderHandler "customer" r w) as [-> | [-> | ->]];
      [done..|].
    by destruct (PlaceOrderHandler_status r w) as [-> | [-> | ->]].
Qed.

Lemma admin_orders_inner_good :
  keeps_limiter (AuthMiddleware AdminOrdersHandler "admin") ∧
  never_too_many_requests (AuthMiddleware AdminOrdersHandler "admin").
Proof.
  split.
  - apply AuthMiddleware_keeps_limiter. intros rw r w.
    destruct (AdminOrdersHandler_frame rw r w) as [lines ->].
    by destruct (logged_frame lines w) as (_ & ? & ? & _).
  - intros r w.
    destruct (AuthMiddleware_status AdminOrdersHandler "admin" r w) as [-> | [-> | ->]];
      [done..|].
    by destruct (AdminOrdersHandler_status r w) as [-> | ->].
Qed.

Lemma serve_rate_limited next reqs :
  keeps_limiter next → never_too_many_requests next →
  ∀ w,
    (λ rw, bool_decide (rw_status rw = Some StatusTooManyRequests))
      <$> (serve (RateLimitMiddleware next) reqs w).1
    = negb <$> (allow_each (w_rateLimiter w) (RemoteAddr <$> reqs) (w_now w)).1.
Proof.
  intros Hkeep Hnever.
  induction reqs as [|r reqs IH]; intros w; [done|].
  cbn [serve allow_each fmap list_fmap]. unfold RateLimitMiddleware at 1.
  destruct (Allow (w_rateLimiter w) (RemoteAddr r) (w_now w)) as [ok lim] eqn:Hallow.
  destruct ok; cbn [negb].
  - destruct (next new_ResponseWriter r (set_rateLimiter lim w)) as [rw' w2] eqn:Hnext.
    pose proof (Hkeep new_ResponseWriter r (set_rateLimiter lim w)) as [Hnow Hlim].
    pose proof (Hnever r (set_rateLimiter lim w)) as H429.
    rewrite Hnext in Hnow, Hlim, H429. simpl in Hnow, Hlim, H429.
    specialize (IH w2). rewrite Hnow, Hlim in IH.
    destruct (serve (RateLimitMiddleware next) reqs w2) as [rws w3].
    destruct (allow_each lim (RemoteAddr <$> reqs) (w_now w)) as [oks lim3].
    cbn [fst snd] in *. rewrite !fmap_cons, IH. by rewrite bool_decide_false.
  - specialize (IH (set_rateLimiter lim w)). simpl in IH.
    destruct (serve (RateLimitMiddleware next) reqs (set_rateLimiter lim w)) as [rws w3].
    destruct (allow_each lim (RemoteAddr <$> reqs) (w_now w)) as [oks lim3].
    cbn [fst snd] in *. rewrite !fmap_cons, IH. by rewrite bool_decide_true.
Qed.

(** X9.  Of requests that arrive at one instant at a route behind the
    limiter, in a process whose limiter is new, exactly the first
    [Seconds window] are let through and the rest are answered 429: whatever
    their remote addresses, and whether or not they are authorised or
    well-formed.  So for [/place-order] and for [/admin/orders]. *)
Theorem rate_limited_routes_admit_window_seconds
    (limit : Z) (window : Duration) (reqs : list Request) (w : World)
    (Hlimit : 0 ≤ limit)
    (Hnew : w_rateLimiter w = NewRateLimiter limit window) :
  (λ rw, bool_decide (rw_status rw = Some StatusTooManyRequests))
    <$> (serve place_order reqs w).1
  = (λ i, bool_decide (Seconds window ≤ i)) <$> seqZ 0 (Z.of_nat (length reqs)) ∧
  (λ rw, bool_decide (rw_status rw = Some StatusTooManyRequests))
    <$> (serve admin_orders reqs w).1
  = (λ i, bool_decide (Seconds window ≤ i)) <$> seqZ 0 (Z.of_nat (length reqs)).
Proof.
  assert (negb <$> (allow_each (w_rateLimiter w) (RemoteAddr <$> reqs) (w_now w)).1
          = (λ i, bool_decide (Seconds window ≤ i)) <$> seqZ 0 (Z.of_nat (length reqs)))
    as Hallow.
  { rewrite Hnew, NewRateLimiter_allows_window_seconds by done.
    rewrite <- list_fmap_compose, length_fmap.
    apply list_fmap_ext. intros n i _. simpl.
    repeat case_bool_decide; (done || lia). }
  split.
  - unfold place_order.
    rewrite serve_rate_limited; [done|apply place_order_inner_good..].
  - unfold admin_orders.
    rewrite serve_rate_limited; [done|apply admin_orders_inner_good..].
Qed.

(** X9, at the limiter of the program (limit 100, window one minute): of 61
    requests at one instant, all bearing the wrong secret, the first 60 are
    let through (to be answered 401) and the last is answered 429. *)
Lemma rate_limited_routes_admit_window_seconds_witness :
  (λ rw, bool_decide (rw_status rw = Some StatusTooManyRequests))
    <$> (serve place_order (replicate 61 SampleWorld.admin_request) SampleWorld.w).1
  = replicate 60 false ++ [true].
Proof.
  destruct (rate_limited_routes_admit_window_seconds 100 Minute
              (replicate 61 SampleWorld.admin_request) SampleWorld.w) as [-> _].
  - lia.
  - reflexivity.
  - vm_compute. reflexivity.
Defined.

(** X10.  The two views only read: a request to [/customer/orders] or to
    [/admin/orders] leaves the store, the files and the mails as they were,
    whatever it is answered; and [/customer/orders], which is not behind the
    limiter, takes no permit. *)
Theorem view_routes_only_read (rw : ResponseWriter) (r : Request) (w : World) :
  (w_db (customer_orders rw r w).2 = w_db w ∧
   w_files (customer_orders rw r w).2 = w_files w ∧
   w_mails (customer_orders rw r w).2 = w_mails w ∧
   w_rateLimiter (customer_orders rw r w).2 = w_rateLimiter w) ∧
  (w_db (admin_orders rw r w).2 = w_db w ∧
   w_files (admin_orders rw r w).2 = w_files w ∧
   w_mails (admin_orders rw r w).2 = w_mails w).
Proof.
  split.
  - unfold customer_orders.
    destruct (AuthMiddleware_frame CustomerOrdersHandler "customer" rw r w) as [-> | ->];
      [done|].
    destruct (CustomerOrdersHandler_frame rw r w) as [lines ->].
    by destruct (logged_frame lines w) as (? & ? & ? & ? & ? & ?).
  - unfold admin_orders, RateLimitMiddleware.
    destruct (Allow (w_rateLimiter w) (RemoteAddr r) (w_now w)) as [[] lim]; simpl; [|done].
    destruct (AuthMiddleware_frame AdminOrdersHandler "admin" rw r (set_rateLimiter lim w))
      as [-> | ->]; [done|].
    destruct (AdminOrdersHandler_frame rw r (set_rateLimiter lim w)) as [lines ->].
    by destruct (logged_frame lines (set_rateLimiter lim w)) as (? & ? & ? & ? & ? & ?).
Qed.

(** X11.  Every route answers every request with one of a few statuses:
    [/customer/orders] with 200, 401 or 500 (never 400: a bad customer id is
    not refused; never 429), [/admin/orders] with 200, 401, 429 or 500, and
    [/place-order] with 201, 400, 401, 429 or 500. *)
Theorem route_statuses (r : Request) (w : World) :
  (rw_status (customer_orders new_ResponseWriter r w).1 = Some StatusOK ∨
   rw_status (customer_orders new_ResponseWriter r w).1 = Some StatusUnauthorized ∨
   rw_status (customer_orders new_ResponseWriter r w).1 = Some StatusInternalServerError) ∧
  (rw_status (admin_orders new_ResponseWriter r w).1 = Some StatusOK ∨
   rw_status (admin_orders new_ResponseWriter r w).1 = Some StatusUnauthorized ∨
   rw_status (admin_orders new_ResponseWriter r w).1 = Some StatusTooManyRequests ∨
   rw_status (admin_orders new_ResponseWriter r w).1 = Some StatusInternalServerError) ∧
  (rw_status (place_order new_ResponseWriter r w).1 = Some StatusCreated ∨
   rw_status (place_order new_ResponseWriter r w).1 = Some StatusBadRequest ∨
   rw_status (place_order new_ResponseWriter r w).1 = Some StatusUnauthorized ∨
   rw_status (place_order new_ResponseWriter r w).1 = Some StatusTooManyRequests ∨
   rw_status (place_order new_ResponseWriter r w).1 = Some StatusInternalServerError).
Proof.
  split_and!.
  - unfold customer_orders.
    destruct (AuthMiddleware_status CustomerOrdersHandler "customer" r w)
      as [-> | [-> | ->]]; [auto..|].
    destruct (CustomerOrdersHandler_status r w) as [-> | ->]; auto.
  - unfold admin_orders, RateLimitMiddleware.
    destruct (Allow (w_rateLimiter w) (RemoteAddr r) (w_now w)) as [[] lim]; simpl;
      [|auto].
    destruct (AuthMiddleware_status AdminOrdersHandler "admin" r (set_rateLimiter lim w))
      as [-> | [-> | ->]]; [auto..|].
    destruct (AdminOrdersHandler_status r (set_rateLimiter lim w)) as [-> | ->]; auto.
  - unfold place_order, RateLimitMiddleware.
    destruct (Allow (w_rateLimiter w) (RemoteAddr r) (w_now w)) as [[] lim]; simpl;
      [|auto 6].
    destruct (AuthMiddleware_status PlaceOrderHandler "customer" r (set_rateLimiter lim w))
      as [-> | [-> | ->]]; [auto 6..|].
    destruct (PlaceOrderHandler_status r (set_rateLimiter lim w)) as [-> | [-> | ->]];
      auto 6.
Qed.

Lemma map_values_empty picks : map_values picks ∅ = [].
Proof. unfold map_values. by rewrite map_to_list_empty. Qed.

Lemma all_orders_nil db ch res :
  getAllOrdersWithProducts db ch = Ok res → res = [] ↔ orders_join db = [].
Proof.
  intros Hres. split.
  - intros ->. apply elem_of_nil_inv. intros [[o op] p] Hj.
    unfold getAllOrdersWithProducts in Hres.
    destruct (query_all_orders db ch) as [rows|] eqn:Hq; [|done].
    apply all_aggregate_Ok in Hres as [_ Hres].
    assert (OrderRow.id o ∈ OrderWithProducts.ID <$> []) as Hin; [|by apply elem_of_nil in Hin].
    rewrite Hres, map_values_id_iff by done.
    apply list_elem_of_fmap. exists (select_all_orders (o, op, p)). split; [done|].
    apply (query_all_orders_rows _ _ _ _ Hq). eauto.
  - intros Hj. unfold getAllOrdersWithProducts, query_all_orders in Hres.
    rewrite Hj in Hres. destruct (reachable db); simpl in Hres; [|done].
    injection Hres as <-. apply map_values_empty.
Qed.

Lemma customer_orders_nil db ch customerID res :
  getCustomerOrdersWithProducts db ch customerID = Ok res →
  res = [] ↔ ∀ j, j ∈ orders_join db → OrderRow.customer_id j.1.1 ≠ customerID.
Proof.
  intros Hres. split.
  - intros -> [[o op] p] Hj Hc.
    unfold getCustomerOrdersWithProducts in Hres.
    destruct (query_customer_orders db ch customerID) as [rows|] eqn:Hq; [|done].
    apply customer_aggregate_Ok in Hres as [_ Hres].
    assert (OrderRow.id o ∈ OrderWithProducts.ID <$> []) as Hin; [|by apply elem_of_nil in Hin].
    rewrite Hres, map_values_id_iff by done.
    apply list_elem_of_fmap. exists (select_customer_orders (o, op, p)). split; [done|].
    apply (query_customer_orders_rows _ _ _ _ _ Hq). exists (o, op, p). done.
  - intros Hnone. unfold getCustomerOrdersWithProducts, query_customer_orders in Hres.
    assert (filter (λ j, OrderRow.customer_id j.1.1 = customerID) (orders_join db) = [])
      as Hf.
    { apply elem_of_nil_inv. intros j [Hc Hj]%list_elem_of_filter. by apply (Hnone j). }
    rewrite Hf in Hres. destruct (reachable db); simpl in Hres; [|done].
    injection Hres as <-. apply map_values_empty.
Qed.

(** X12.  On a store that answers, the admin view writes the JSON [null]
    exactly when no order has an association row with a product, and the
    customer view writes it exactly when no such order belongs to the
    customer of the request: the slice the read returns is then nil. *)
Theorem views_write_null_exactly_without_orders (r : Request) (w : World)
    (Hup : reachable (w_db w) = true) :
  (rw_body (AdminOrdersHandler new_ResponseWriter r w).1 = [JSONNull] ↔
   orders_join (w_db w) = []) ∧
  (rw_body (CustomerOrdersHandler new_ResponseWriter r w).1 = [JSONNull] ↔
   ∀ j, j ∈ orders_join (w_db w) → OrderRow.customer_id j.1.1 ≠ getCustomerID r).
Proof.
  split.
  - unfold AdminOrdersHandler.
    destruct (getAllOrdersWithProducts (w_db w) (w_choices w)) as [orders|e] eqn:Hres.
    + rewrite <- (all_orders_nil _ _ _ Hres). by destruct orders.
    + split; [done|]. intros Hj.
      unfold getAllOrdersWithProducts, query_all_orders in Hres.
      rewrite Hj, Hup in Hres. done.
  - unfold CustomerOrdersHandler.
    destruct (getCustomerOrdersWithProducts (w_db w) (w_choices w) (getCustomerID r))
      as [orders|e] eqn:Hres.
    + rewrite <- (customer_orders_nil _ _ _ _ Hres). by destruct orders.
    + split; [done|]. intros Hnone.
      unfold getCustomerOrdersWithProducts, query_customer_orders in Hres.
      assert (filter (λ j, OrderRow.customer_id j.1.1 = getCustomerID r)
                     (orders_join (w_db w)) = []) as Hf.
      { apply elem_of_nil_inv. intros j [Hc Hj]%list_elem_of_filter. by apply (Hnone j). }
      rewrite Hf, Hup in Hres. done.
Qed.

(** X12, at a store without rows (as [initDB] leaves it), at customer 0 of
    the sample store, and at the sample store itself, whose admin view is
    an array. *)
Lemma views_write_null_exactly_without_orders_witness :
  rw_body (AdminOrdersHandler new_ResponseWriter SampleWorld.admin_request
             (set_db initDB SampleWorld.w)).1 = [JSONNull] ∧
  rw_body (CustomerOrdersHandler new_ResponseWriter SampleWorld.request_without_id
             SampleWorld.w).1 = [JSONNull] ∧
  rw_body (AdminOrdersHandler new_ResponseWriter SampleWorld.admin_request
             SampleWorld.w).1 ≠ [JSONNull].
Proof.
  split_and!.
  - destruct (views_write_null_exactly_without_orders SampleWorld.admin_request
                (set_db initDB SampleWorld.w) eq_refl) as [[_ Hadmin] _].
    by apply Hadmin.
  - destruct (views_write_null_exactly_without_orders SampleWorld.request_without_id
                SampleWorld.w eq_refl) as [_ [_ Hcust]].
    apply Hcust.
    intros [[o op] p] (Ho & _)%elem_of_orders_join. simpl in *.
    rewrite !elem_of_cons, elem_of_nil in Ho.
    destruct Ho as [->|[->|[->|[]]]]; done.
  - intros Hnull.
    destruct (views_write_null_exactly_without_orders SampleWorld.admin_request
                SampleWorld.w eq_refl) as [[Hadmin _] _].
    apply Hadmin in Hnull. vm_compute in Hnull. discriminate Hnull.
Defined.

(** ** The reminder task, further *)

Lemma remind_row_frame w r :
  w_db (remind_row w r) = w_db w ∧ w_files (remind_row w r) = w_files w ∧
  w_now (remind_row w r) = w_now w ∧ w_taskLimiter (remind_row w r) = w_taskLimiter w ∧
  w_rateLimiter (remind_row w r) = w_rateLimiter w ∧
  w_choices (remind_row w r) = w_choices w ∧
  w_timing (remind_row w r) = w_timing w.
Proof.
  unfold remind_row, SendEmailReminder.
  destruct (PendingRow.customer_email r); simpl; [|done].
  by destruct (w_smtp _ _).
Qed.

Lemma sweep_frame rows : ∀ w,
  w_db (foldl remind_row w rows) = w_db w ∧ w_files (foldl remind_row w rows) = w_files w ∧
  w_now (foldl remind_row w rows) = w_now w ∧
  w_taskLimiter (foldl remind_row w rows) = w_taskLimiter w ∧
  w_rateLimiter (foldl remind_row w rows) = w_rateLimiter w ∧
  w_choices (foldl remind_row w rows) = w_choices w ∧
  w_timing (foldl remind_row w rows) = w_timing w.
Proof.
  induction rows as [|r rows IH]; intros w; simpl; [done|].
  destruct (IH (remind_row w r)) as (-> & -> & -> & -> & -> & -> & ->).
  apply remind_row_frame.
Qed.

Lemma SendPendingOrderReminders_frame w :
  w_db (SendPendingOrderReminders w) = w_db w ∧
  w_files (SendPendingOrderReminders w) = w_files w ∧
  w_now (SendPendingOrderReminders w) = w_now w ∧
  w_taskLimiter (SendPendingOrderReminders w) = w_taskLimiter w ∧
  w_rateLimiter (SendPendingOrderReminders w) = w_rateLimiter w ∧
  w_choices (SendPendingOrderReminders w) = w_choices w ∧
  w_timing (SendPendingOrderReminders w) = w_timing w.
Proof.
  unfold SendPendingOrderReminders.
  destruct (query_pending_orders _ _); [apply sweep_frame|done].
Qed.

Lemma length_omap_le {A B} (f : A → option B) (l : list A) :
  (length (omap f l) ≤ length l)%nat.
Proof.
  induction l as [|x l IH]; [done|].
  change (omap f (x :: l))
    with (match f x with Some y => y :: omap f l | None => omap f l end).
  destruct (f x); simpl; lia.
Qed.

(** X13.  A sweep hands the mail server only reminders of pending orders:
    every mail it adds is the reminder of an order row whose status is
    "Pending", sent to the address of that row, and it adds no more mails
    than there are pending orders. *)
Theorem sweep_mails_only_pending_orders (w : World) :
  ∃ new,
    w_mails (SendPendingOrderReminders w) = w_mails w ++ new ∧
    (length new ≤ length (filter (λ o, OrderRow.status o = "Pending") (orders (w_db w))))%nat ∧
    ∀ m, m ∈ new →
      ∃ o customer_email to,
        o ∈ orders (w_db w) ∧ OrderRow.status o = "Pending" ∧
        orders_customer_email (w_db w) = Some customer_email ∧
        customer_email (OrderRow.id o) = Some to ∧
        m = reminder (w_smtpConfig w) to (OrderRow.id o).
Proof.
  unfold SendPendingOrderReminders.
  destruct (query_pending_orders (w_db w) (w_choices w)) as [rows|e] eqn:Hq.
  - exists (sweep_mails (w_smtpConfig w) rows).
    destruct (sweep_effect rows w) as [-> _].
    unfold query_pending_orders in Hq.
    destruct (reachable (w_db w)); simpl in Hq; [|done].
    destruct (orders_customer_email (w_db w)) as [customer_email|] eqn:Hcol; [|done].
    injection Hq as <-. split_and!; [done|..].
    + unfold sweep_mails.
      etrans; [apply length_omap_le|].
      by rewrite shuffle_perm, length_fmap.
    + intros m (r & Hr & Hm)%list_elem_of_omap.
      apply elem_of_shuffle, list_elem_of_fmap in Hr as (o & -> & Ho).
      apply list_elem_of_filter in Ho as [Hst Ho]. simpl in Hm.
      destruct (customer_email (OrderRow.id o)) as [to|] eqn:Hto; [|done].
      injection Hm as <-. exists o, customer_email, to. done.
  - exists []. simpl. rewrite app_nil_r. split_and!; [done|lia|].
    intros m Hm. by apply elem_of_nil in Hm.
Qed.

Lemma Day_pos : 0 < Day.
Proof. done. Qed.

Lemma next_midnight now :
  now < (now `div` Day + 1) * Day ≤ now + Day.
Proof.
  pose proof (Z.div_mod now Day) as Hdm.
  pose proof (Z.mod_pos_bound now Day Day_pos) as Hm.
  specialize (Hdm ltac:(done)). lia.
Qed.

(** In a zone without offset the next midnight is the next multiple of a
    day. *)
Lemma nextMidnight_without_offset loc now :
  (∀ t, zone_offset (loc t) = 0) → nextMidnight loc now = (now `div` Day + 1) * Day.
Proof.
  intros Hutc. unfold nextMidnight. rewrite !Hutc, Z.mul_0_l, Z.add_0_r.
  by rewrite decide_True.
Qed.

Lemma Sub_within_int64 t u : minInt ≤ t - u ≤ maxInt → Sub t u = t - u.
Proof. unfold Sub. lia. Qed.

Lemma set_taskLimiter_same w : set_taskLimiter (w_taskLimiter w) w = w.
Proof. by destruct w. Qed.

(** A turn that obtains the permit, spelt out. *)
Lemma BackgroundTask_turn_with_permit w :
  (Allow (w_taskLimiter w) "background-task" (w_now w)).1 = true →
  BackgroundTask_turn w =
    let now := w_now w + Z.pos (sweep_time (w_timing w) (w_now w)) in
    Sleep (Sub (nextMidnight (local (w_timing w)) now) now)
      (set_now now
         (SendPendingOrderReminders
            (set_taskLimiter (Allow (w_taskLimiter w) "background-task" (w_now w)).2 w))).
Proof.
  unfold BackgroundTask_turn.
  destruct (Allow (w_taskLimiter w) "background-task" (w_now w)) as [ok lim]. simpl.
  intros ->.
  destruct (SendPendingOrderReminders_frame (set_taskLimiter lim w))
    as (_ & _ & _ & _ & _ & _ & Htiming).
  simpl in *. by rewrite Htiming.
Qed.

(** A turn that does not, spelt out. *)
Lemma BackgroundTask_turn_without_permit w :
  (Allow (w_taskLimiter w) "background-task" (w_now w)).1 = false →
  BackgroundTask_turn w = Sleep (1 * Hour) w.
Proof.
  unfold BackgroundTask_turn, Allow, rate.Allow.
  destruct (Second <=? rate.advance (w_taskLimiter w) (w_now w)); simpl; [done|].
  intros _. by rewrite set_taskLimiter_same.
Qed.

Lemma BackgroundTask_turn_frame w :
  w_db (BackgroundTask_turn w) = w_db w ∧
  w_files (BackgroundTask_turn w) = w_files w ∧
  w_rateLimiter (BackgroundTask_turn w) = w_rateLimiter w ∧
  w_choices (BackgroundTask_turn w) = w_choices w ∧
  w_timing (BackgroundTask_turn w) = w_timing w ∧
  w_taskLimiter (BackgroundTask_turn w)
    = (Allow (w_taskLimiter w) "background-task" (w_now w)).2 ∧
  w_now w < w_now (BackgroundTask_turn w).
Proof.
  destruct (Allow (w_taskLimiter w) "background-task" (w_now w)).1 eqn:Hok.
  - rewrite (BackgroundTask_turn_with_permit w Hok). simpl.
    destruct (SendPendingOrderReminders_frame
                (set_taskLimiter (Allow (w_taskLimiter w) "background-task" (w_now w)).2 w))
      as (-> & -> & _ & -> & -> & -> & ->).
    simpl. split_and!; [done..|]. lia.
  - rewrite (BackgroundTask_turn_without_permit w Hok). simpl.
    split_and!; [done..| |].
    + revert Hok. unfold Allow, rate.Allow.
      by destruct (Second <=? rate.advance (w_taskLimiter w) (w_now w)).
    + unfold Hour, Minute, Second. lia.
Qed.

Lemma BackgroundTask_db n w : w_db (BackgroundTask n w) = w_db w.
Proof.
  induction n as [|n IH]; [done|].
  change (BackgroundTask (S n) w) with (BackgroundTask_turn (BackgroundTask n w)).
  by destruct (BackgroundTask_turn_frame (BackgroundTask n w)) as (-> & _).
Qed.

(** X14.  The background task only reads the store: after any number of
    turns the store and the files are as at the start and no permit of the
    request limiter is taken; and the clock never stands still, every turn
    ends later than it began. *)
Theorem background_task_only_reads (n : nat) (w : World) :
  w_db (BackgroundTask n w) = w_db w ∧
  w_files (BackgroundTask n w) = w_files w ∧
  w_rateLimiter (BackgroundTask n w) = w_rateLimiter w ∧
  w_now w + Z.of_nat n ≤ w_now (BackgroundTask n w).
Proof.
  induction n as [|n IH]; [simpl; split_and!; (done || lia)|].
  destruct IH as (Hdb & Hfiles & Hlim & Hnow).
  change (BackgroundTask (S n) w) with (BackgroundTask_turn (BackgroundTask n w)).
  destruct (BackgroundTask_turn_frame (BackgroundTask n w))
    as (-> & -> & -> & _ & _ & _ & Hlt).
  split_and!; [done..|]. lia.
Qed.

(** X15.  One turn of the background task.  With a permit, the clock is
    read when the sweep has ended, which is later than the turn began, and
    the turn does not end before that; where the zone of the process has no
    offset (UTC), the turn sleeps until the first day boundary after the end
    of the sweep, which is at most 24 hours after it, and ends there or as
    much later as the sleep oversleeps.  Without a permit nothing happens
    but the sleep of one hour: no query, no mail, no line in the log. *)
Theorem background_task_turn_clock (w : World) :
  ((Allow (w_taskLimiter w) "background-task" (w_now w)).1 = true →
     let now := w_now w + Z.pos (sweep_time (w_timing w) (w_now w)) in
     w_now w < now ≤ w_now (BackgroundTask_turn w) ∧
     ((∀ t, zone_offset (local (w_timing w) t) = 0) →
        now < (now `div` Day + 1) * Day ≤ now + Day ∧
        w_now (BackgroundTask_turn w)
          = (now `div` Day + 1) * Day + Z.of_N (sleep_lag (w_timing w) now))) ∧
  ((Allow (w_taskLimiter w) "background-task" (w_now w)).1 = false →
     BackgroundTask_turn w
       = set_now (w_now w + Hour + Z.of_N (sleep_lag (w_timing w) (w_now w))) w).
Proof.
  split.
  - intros Hok now. rewrite (BackgroundTask_turn_with_permit w Hok). fold now. simpl.
    destruct (SendPendingOrderReminders_frame
                (set_taskLimiter (Allow (w_taskLimiter w) "background-task" (w_now w)).2 w))
      as (_ & _ & _ & _ & _ & _ & ->).
    simpl. split; [unfold now; lia|].
    intros Hutc. pose proof (next_midnight now) as Hm.
    rewrite (nextMidnight_without_offset _ _ Hutc).
    rewrite Sub_within_int64.
    + split; [done|lia].
    + assert (Day ≤ maxInt) by done. assert (minInt ≤ 0) by done. lia.
  - intros Hno. rewrite (BackgroundTask_turn_without_permit w Hno).
    unfold Sleep. f_equal; unfold Hour, Minute, Second; lia.
Qed.

Lemma BackgroundTask_turn_without_email w :
  orders_customer_email (w_db w) = None →
  w_mails (BackgroundTask_turn w) = w_mails w.
Proof.
  intros Hcol. unfold BackgroundTask_turn.
  destruct (Allow (w_taskLimiter w) "background-task" (w_now w)) as [[] lim]; simpl;
    [|done].
  unfold SendPendingOrderReminders, query_pending_orders. simpl. rewrite Hcol.
  by destruct (reachable (w_db w)).
Qed.

(** X16.  On tables as [initDB] creates them, where [orders] has no column
    [customer_email], the background task never hands a mail to the mail
    server, however many turns it runs: the statement of every sweep names
    that column. *)
Theorem background_task_sends_nothing_on_initDB_tables (n : nat) (w : World)
    (Hcol : orders_customer_email (w_db w) = None) :
  w_mails (BackgroundTask n w) = w_mails w.
Proof.
  induction n as [|n IH]; [done|].
  change (BackgroundTask (S n) w) with (BackgroundTask_turn (BackgroundTask n w)).
  rewrite BackgroundTask_turn_without_email; [done|].
  by rewrite BackgroundTask_db.
Qed.

(** X15, at the sample world, whose task limiter is new, whose zone is UTC
    and whose sleep is punctual, and at the world whose task limiter was
    emptied just now. *)
Lemma background_task_turn_clock_witness :
  (w_now (BackgroundTask_turn SampleWorld.w) `mod` Day = 0 ∧
   w_now SampleWorld.w < w_now (BackgroundTask_turn SampleWorld.w)) ∧
  BackgroundTask_turn SampleIdle.w = set_now (w_now SampleIdle.w + Hour) SampleIdle.w.
Proof.
  destruct (background_task_turn_clock SampleWorld.w) as [Hpermit _].
  destruct (background_task_turn_clock SampleIdle.w) as [_ Hidle].
  split.
  - destruct Hpermit as [Hlt Hutc]; [vm_compute; reflexivity|].
    destruct Hutc as [_ ->]; [done|].
    split; vm_compute; reflexivity.
  - rewrite Hidle; [|vm_compute; reflexivity]. f_equal.
Defined.

(** X16, at the sample orders in tables as [initDB] creates them: three
    turns, two orders pending, no mail. *)
Lemma background_task_sends_nothing_on_initDB_tables_witness :
  w_mails (BackgroundTask 3 (set_db Sample.db_initDB SampleWorld.w)) = [].
Proof.
  apply (background_task_sends_nothing_on_initDB_tables 3
           (set_db Sample.db_initDB SampleWorld.w)).
  vm_compute. reflexivity.
Defined.

(** The bucket of the task limiter loses at most one permit a turn. *)
Lemma gate_invariant limit window w n :
  0 ≤ limit → w_taskLimiter w = NewRateLimiter limit window →
  Z.of_nat n ≤ Seconds window →
  rate.limit (w_taskLimiter (BackgroundTask n w)) = limit ∧
  rate.burst (w_taskLimiter (BackgroundTask n w)) = Seconds window ∧
  (Seconds window - Z.of_nat n) * Second ≤ rate.tokens (w_taskLimiter (BackgroundTask n w)).
Proof.
  intros Hl Hnew. induction n as [|n IH]; intros Hn.
  - simpl. rewrite Hnew. simpl. split_and!; [done..|lia].
  - destruct IH as (Hlimit & Hburst & Htokens); [lia|].
    change (BackgroundTask (S n) w) with (BackgroundTask_turn (BackgroundTask n w)).
    destruct (allow_with_tokens (w_taskLimiter (BackgroundTask n w))
                (w_now (BackgroundTask n w)) (Z.of_nat n))
      as (Hok & Hlimit' & Hburst' & Htokens'); [lia..| |].
    { by rewrite Hburst. }
    destruct (BackgroundTask_turn_frame (BackgroundTask n w))
      as (_ & _ & _ & _ & _ & -> & _).
    unfold Allow. rewrite Hlimit', Hburst', Hlimit, Hburst.
    rewrite Hburst in Htokens'. split_and!; [done..|].
    by replace (Seconds window - Z.of_nat (S n))
      with (Seconds window - (Z.of_nat n + 1)) by lia.
Qed.

(** X17.  The gate of the background task stays open for as many turns as
    the window of its limiter has seconds, whatever the limit: from a new
    limiter, each of the first [Seconds window] turns obtains the permit and
    runs a sweep, however long the sweeps and the sleeps take and whatever
    the zone.  (For the program's task limiter these are 86400 turns.) *)
Theorem background_task_gate_stays_open
    (limit : Z) (window : Duration) (w : World) (n : nat)
    (Hlimit : 0 ≤ limit)
    (Hnew : w_taskLimiter w = NewRateLimiter limit window)
    (Hn : Z.of_nat n < Seconds window) :
  (Allow (w_taskLimiter (BackgroundTask n w)) "background-task"
     (w_now (BackgroundTask n w))).1 = true.
Proof.
  destruct (gate_invariant limit window w n Hlimit Hnew) as (Hl & Hb & Ht); [lia|].
  destruct (allow_with_tokens (w_taskLimiter (BackgroundTask n w))
              (w_now (BackgroundTask n w)) (Z.of_nat n)) as (Hok & _); [lia..| |done].
  by rewrite Hb.
Qed.

(** X17, at the sample world: the program's task limiter, and the turn after
    a thousand turns. *)
Lemma background_task_gate_stays_open_witness :
  (Allow (w_taskLimiter (BackgroundTask 1000 SampleWorld.w)) "background-task"
     (w_now (BackgroundTask 1000 SampleWorld.w))).1 = true.
Proof.
  apply (background_task_gate_stays_open 1 (24 * Hour) SampleWorld.w 1000).
  - lia.
  - reflexivity.
  - vm_compute. reflexivity.
Defined.

(** ** The limiter over time *)

Lemma allow_calls_invariant limit burst calls : ∀ lim,
  rate.limit lim = limit → rate.burst lim = burst → 0 ≤ rate.tokens lim →
  rate.limit (allow_calls lim calls) = limit ∧
  rate.burst (allow_calls lim calls) = burst ∧
  0 ≤ rate.tokens (allow_calls lim calls).
Proof.
  induction calls as [|[key now] calls IH]; intros lim Hl Hb Ht; [done|].
  cbn [allow_calls]. apply IH; unfold Allow, rate.Allow;
    destruct (Second <=? rate.advance lim now) eqn:Hle; simpl; try done.
  apply Z.leb_le in Hle. lia.
Qed.

(** X18.  Whatever calls came before, a call at least one second after the
    last allowed call is allowed, when the limit is at least 1 and the
    window at least one second: the limiter re-admits after a second, not
    after the window. *)
Theorem limiter_readmits_after_one_second
    (limit : Z) (window : Duration) (calls : list (string * Time))
    (key : string) (now : Time)
    (Hlimit : 1 ≤ limit)
    (Hwindow : 1 ≤ Seconds window)
    (Hlater : rate.last (allow_calls (NewRateLimiter limit window) calls) + Second ≤ now) :
  (Allow (allow_calls (NewRateLimiter limit window) calls) key now).1 = true.
Proof.
  destruct (allow_calls_invariant limit (Seconds window) calls
              (NewRateLimiter limit window)) as (Hl & Hb & Ht); [done..| |].
  { simpl. unfold Second. lia. }
  unfold Allow, rate.Allow.
  assert (Second ≤ rate.advance (allow_calls (NewRateLimiter limit window) calls) now)
    as Hadv.
  { unfold rate.advance. rewrite Hl, Hb.
    assert (Second ≤
            Z.max 0 (now - rate.last (allow_calls (NewRateLimiter limit window) calls))
            * limit) by (unfold Second in *; nia).
    unfold Second in *. lia. }
  apply Z.leb_le in Hadv. by rewrite Hadv.
Qed.

(** X18, at a limiter with limit 1 and a window of two seconds: of three
    calls at time 5 the third is refused, and a call one second later is
    allowed. *)
Lemma limiter_readmits_after_one_second_witness :
  (Allow (allow_calls (NewRateLimiter 1 (2 * Second)) [("a", 5); ("a", 5)]) "a" 5).1
    = false ∧
  (Allow (allow_calls (NewRateLimiter 1 (2 * Second)) [("a", 5); ("a", 5); ("a", 5)])
     "a" (5 + Second)).1 = true.
Proof.
  split; [vm_compute; reflexivity|].
  apply (limiter_readmits_after_one_second 1 (2 * Second)
           [("a", 5); ("a", 5); ("a", 5)] "a" (5 + Second)).
  - lia.
  - vm_compute. discriminate.
  - vm_compute. discriminate.
Defined.

(** ** The customer id of a request *)

Lemma digits_all_digits s : ∀ acc n, digits s acc = Some n → all_digits s = true.
Proof.
  induction s as [|c s IH]; intros acc n; simpl; [done|].
  unfold digit, is_digit.
  destruct ((48 <=? Z.of_N (N_of_ascii c)) && (Z.of_N (N_of_ascii c) <=? 57)); simpl;
    [apply IH|done].
Qed.

Lemma Atoi_Ok s n :
  Atoi s = Ok n → decimal_integer s = true ∧ minInt ≤ n ≤ maxInt.
Proof.
  unfold Atoi, decimal_integer.
  destruct (split_sign s) as [neg body].
  destruct body as [|c body]; [done|].
  destruct (digits (String c body) 0) as [m|] eqn:Hd; [|done].
  destruct ((minInt <=? (if neg then - m else m)) && ((if neg then - m else m) <=? maxInt))
    eqn:Hr; [|done].
  intros [= <-]. apply andb_true_iff in Hr as [?%Z.leb_le ?%Z.leb_le].
  split; [|done]. by rewrite (digits_all_digits _ _ _ Hd).
Qed.

(** X19.  [getCustomerID] takes a customer id other than 0 only from a
    header that is a decimal integer (a sign, if any, and digits) within the
    64 bits of an [int], and then it is the number [strconv.Atoi] reads; a
    negative number is taken as it is. *)
Theorem customer_id_comes_from_a_decimal_header (r : Request)
    (Hid : getCustomerID r ≠ 0) :
  decimal_integer (Header_Get r "X-Customer-ID") = true ∧
  Atoi (Header_Get r "X-Customer-ID") = Ok (getCustomerID r) ∧
  minInt ≤ getCustomerID r ≤ maxInt.
Proof.
  unfold getCustomerID in *.
  destruct (Atoi (Header_Get r "X-Customer-ID")) as [n|e] eqn:Ha; [|done].
  by destruct (Atoi_Ok _ _ Ha).
Qed.

(** X19, at a request that names customer -5. *)
Lemma customer_id_comes_from_a_decimal_header_witness :
  getCustomerID SampleRequests.for_customer_minus_5 = -5 ∧
  decimal_integer (Header_Get SampleRequests.for_customer_minus_5 "X-Customer-ID") = true.
Proof.
  split; [vm_compute; reflexivity|].
  apply (customer_id_comes_from_a_decimal_header SampleRequests.for_customer_minus_5).
  vm_compute. discriminate.
Defined.

(** ** Order placement and the report *)

(** X20.  Once the order and its association rows are written,
    [PlaceOrderHandler] answers 201 whatever becomes of the report: the
    store is as the two writes left it, and the mails are as before.  A
    report that fails adds one line to the log, and can otherwise have touched
    only the file [order_report.csv]; a report that returns no error adds no
    line. *)
Theorem place_order_tolerates_report_failure
    (rw : ResponseWriter) (r : Request) (w w1 w2 : World)
    (orderRequest : OrderRequest.t) (orderID : Z)
    (Hbody : Body r = Decoded orderRequest)
    (Hvalid : validateOrderRequest orderRequest = None)
    (Hcreate : createOrder orderRequest w = (Ok orderID, w1))
    (Hassociate : associateProducts orderID (OrderRequest.Products orderRequest) w1
                  = (None, w2)) :
  (PlaceOrderHandler rw r w).1
    = Write (Text "Order placed successfully") (WriteHeader StatusCreated rw) ∧
  w_db (PlaceOrderHandler rw r w).2 = w_db w2 ∧
  w_mails (PlaceOrderHandler rw r w).2 = w_mails w2 ∧
  (∀ name, name ≠ "order_report.csv" →
     w_files (PlaceOrderHandler rw r w).2 !! name = w_files w2 !! name) ∧
  (∀ err, (GenerateCSVReport orderID (OrderRequest.CustomerID orderRequest) w2).1 = Some err →
     (PlaceOrderHandler rw r w).2
       = log_Println "Error generating CSV report:" (Some err)
           (GenerateCSVReport orderID (OrderRequest.CustomerID orderRequest) w2).2 ∧
     w_log (PlaceOrderHandler rw r w).2
       = w_log w2 ++ [ {| log_text := "Error generating CSV report:";
                          log_err := Some err |} ]) ∧
  ((GenerateCSVReport orderID (OrderRequest.CustomerID orderRequest) w2).1 = None →
     w_log (PlaceOrderHandler rw r w).2 = w_log w2).
Proof.
  unfold PlaceOrderHandler. rewrite Hbody, Hvalid, Hcreate, Hassociate.
  pose proof (GenerateCSVReport_frame orderID (OrderRequest.CustomerID orderRequest) w2)
    as (_ & _ & Hmails & Hdb & Hlog & Hfiles).
  destruct (GenerateCSVReport orderID (OrderRequest.CustomerID orderRequest) w2)
    as [[e|] w3]; simpl in *.
  - split_and!; [done..| |done]. intros err [= <-]. by rewrite Hlog.
  - by split_and!.
Qed.

(** X20, at a valid order in the world whose disk refuses the report file,
    and in the world whose disk fails in the second call of [writer.Write]:
    the answer is 201, the order is in the store, and the log has one
    line. *)
Lemma place_order_tolerates_report_failure_witness :
  (rw_status (PlaceOrderHandler new_ResponseWriter
                (SampleOrders.request SampleOrders.valid) SampleDisk.w).1 = Some 201 ∧
   length (orders (w_db (PlaceOrderHandler new_ResponseWriter
                           (SampleOrders.request SampleOrders.valid) SampleDisk.w).2))
     = 4%nat ∧
   length (w_log (PlaceOrderHandler new_ResponseWriter
                    (SampleOrders.request SampleOrders.valid) SampleDisk.w).2) = 1%nat) ∧
  length (w_log (PlaceOrderHandler new_ResponseWriter
                   (SampleOrders.request SampleOrders.valid)
                   (SampleDisk.with_disk (WriteFails 1 0))).2) = 1%nat.
Proof.
  split.
  - edestruct (place_order_tolerates_report_failure new_ResponseWriter
                 (SampleOrders.request SampleOrders.valid) SampleDisk.w)
      as (Hrw & Hdb & _ & _ & Hlog & _);
      [reflexivity | vm_compute; reflexivity | vm_compute; reflexivity
      | vm_compute; reflexivity |].
    rewrite Hrw, Hdb. split_and!; [reflexivity..|].
    destruct (Hlog (ErrIO "open order_report.csv")) as [_ ->]; [vm_compute; reflexivity|].
    reflexivity.
  - edestruct (place_order_tolerates_report_failure new_ResponseWriter
                 (SampleOrders.request SampleOrders.valid)
                 (SampleDisk.with_disk (WriteFails 1 0)))
      as (_ & _ & _ & _ & Hlog & _);
      [reflexivity | vm_compute; reflexivity | vm_compute; reflexivity
      | vm_compute; reflexivity |].
    destruct (Hlog (ErrIO "write order_report.csv")) as [_ ->]; [vm_compute; reflexivity|].
    reflexivity.
Defined.

(** ** When the details of an order can be read *)

(** X21.  [getOrderDetails] returns a result exactly when the store
    answers, the table [order_products] has the column [quantity], and every
    association row of the order (as owned by the customer) can be scanned:
    the price of its product is within the range of a [float64] and its
    quantity is not NULL.  One row that cannot makes the whole call fail. *)
Theorem order_details_answers_exactly
    (db : DB) (ch : Choices) (orderID customerID : Z) :
  (∃ res, getOrderDetails db ch orderID customerID = Ok res) ↔
  reachable db = true ∧
  ∃ op_quantity,
    order_products_quantity db = Some op_quantity ∧
    ∀ o op p, (o, op, p) ∈ orders_join db →
      OrderRow.id o = orderID → OrderRow.customer_id o = customerID →
      fits_float64 (ProductRow.price p) = true ∧
      is_Some (op_quantity (OrderProductRow.order_id op) (OrderProductRow.product_id op)).
Proof.
  unfold getOrderDetails. split.
  - intros [res Hres].
    destruct (OrderDetails.query db ch orderID customerID) as [rows|] eqn:Hq; [|done].
    pose proof (order_details_loop_scans _ _ _ Hres) as Hqs.
    pose proof Hq as Hq'. unfold OrderDetails.query in Hq'.
    destruct (reachable db); simpl in Hq'; [|done].
    destruct (order_products_quantity db) as [op_quantity|] eqn:Hcol; [|done].
    split; [done|]. exists op_quantity. split; [done|].
    intros o op p Hj Hid Hc. rewrite Forall_forall in Hqs.
    apply (Hqs (OrderDetails.select op_quantity (o, op, p))).
    apply (query_order_details_rows _ _ _ _ _ _ Hq). exists op_quantity, (o, op, p).
    by rewrite Hcol.
  - intros (Hup & op_quantity & Hcol & Hq).
    unfold OrderDetails.query. rewrite Hup, Hcol. simpl.
    apply order_details_loop_total. apply Forall_forall. intros r Hr.
    apply elem_of_shuffle, list_elem_of_fmap in Hr as ([[o op] p] & -> & Hj).
    apply list_elem_of_filter in Hj as [[Hid Hc] Hj]. simpl in *. by apply (Hq o op p).
Qed.

(** X21, at order 1 of customer 7: it is read in the sample store, and can
    be read neither from tables as [initDB] creates them nor from the store
    whose ink has a price beyond the range of a [float64]. *)
Lemma order_details_answers_exactly_witness :
  (∃ res, getOrderDetails Sample.db Sample.ch 1 7 = Ok res) ∧
  ¬ (∃ res, getOrderDetails Sample.db_initDB Sample.ch 1 7 = Ok res) ∧
  ¬ (∃ res, getOrderDetails SampleRange.db Sample.ch 1 7 = Ok res).
Proof.
  split_and!.
  - apply (order_details_answers_exactly Sample.db Sample.ch 1 7).
    split; [reflexivity|]. eexists. split; [reflexivity|].
    intros o op p (_ & _ & Hp & _)%elem_of_orders_join _ _. simpl in Hp.
    rewrite !elem_of_cons, elem_of_nil in Hp.
    destruct Hp as [->|[->|[]]]; (split; [vm_compute; reflexivity | simpl; eauto]).
  - intros (_ & q & Hcol & _)%(order_details_answers_exactly Sample.db_initDB Sample.ch 1 7).
    vm_compute in Hcol. discriminate Hcol.
  - intros (_ & q & _ & Hrows)%(order_details_answers_exactly SampleRange.db Sample.ch 1 7).
    destruct (Hrows (OrderRow.mk 1 7 1000 "Pending") (OrderProductRow.mk 1 5)
                SampleRange.ink) as [Hfit _]; [|done..|].
    + apply elem_of_orders_join. simpl. rewrite !elem_of_cons. tauto.
    + vm_compute in Hfit. discriminate Hfit.
Defined.
